(** * eterpay: invoice settlement check and vendor release

    A shallow embedding of [eterpay/utils.py] and of the invoice actions of
    [bitcoin/views.py] (class [ProjectViewSet]), with the properties of the
    settlement check, of the fee arithmetic and of the release action.

    Layout:
    - [Digits], [PyDecimal]: the part of Python's [decimal] module that
      the code uses (construction from text, [*], [/ 100], [-],
      comparison), under the default context (28 significant digits,
      ROUND_HALF_EVEN, exponents from -999999 to 999999, Overflow
      trapped);
    - [Utils]: [get_price_fee] and [get_object_or_none];
    - [Bit], [World]: the wallet library and the settings, as the views
      see them;
    - [Views]: [check_invoice], [delete_invoice], [invoice_details] and
      [release_invoice];
    - [Aggregate], [SingleOutput], [Plan], [Sample]: the notions and the
      data that the statements use;
    - the properties: the settlement check, the look-up, the release, the
      decimal arithmetic, the fee. *)

From Stdlib Require Import ZArith List String Bool Lia.
From Stdlib Require Import DecimalString Permutation Sorted.
Import ListNotations.

Local Open Scope Z_scope.

(* ================================================================== *)
(** ** Exceptions and results *)

Inductive exn : Type :=
| DoesNotExist                 (* a subclass of ObjectDoesNotExist *)
| MultipleObjectsReturned
| NameError (name : string)
| KeyError (key : string)
| IndexError
| Overflow.                    (* decimal.Overflow *)

Inductive result (A : Type) : Type :=
| Ok (a : A)
| Raise (e : exn).
Arguments Ok {A} a.
Arguments Raise {A} e.

Definition bind {A B : Type} (m : result A) (k : A -> result B) : result B :=
  match m with
  | Ok a => k a
  | Raise e => Raise e
  end.

Notation "x <- m ;; k" := (bind m (fun x => k))
  (at level 61, m at next level, right associativity).

(** [str(n)] for an [int]. *)
Definition str_int (n : Z) : string := NilZero.string_of_int (Z.to_int n).

(* ================================================================== *)
(** ** Decimal digits and rounding of integers *)

Module Digits.

(** [len(str(n))] for a non-negative integer [n]: the number of decimal
    digits, 1 for 0. *)
Fixpoint digits_aux (fuel : nat) (n : Z) : Z :=
  match fuel with
  | O => 1
  | S f => if n <? 10 then 1 else 1 + digits_aux f (n / 10)
  end.

Definition ndigits (n : Z) : Z := digits_aux (Z.to_nat (Z.log2 n)) n.

(** The default context of the [decimal] module: [prec=28],
    [Emax=999999], [Emin=-999999]; [Etiny()] and [Etop()] are the
    smallest exponent of a result and the largest exponent of a result
    with [prec] digits. *)
Definition prec : Z := 28.
Definition Emax : Z := 999999.
Definition Emin : Z := -999999.
Definition Etiny : Z := Emin - prec + 1.
Definition Etop : Z := Emax - prec + 1.

(** Rounding of [n >= 0] to a multiple of [10^k], to nearest, ties to the
    even quotient (ROUND_HALF_EVEN); the result is the quotient. *)
Definition round_half_even (n k : Z) : Z :=
  let m := 10 ^ k in
  let q := n / m in
  let r := n mod m in
  if (m <? 2 * r) || ((m =? 2 * r) && Z.odd q) then q + 1 else q.

(** The value of a rounded result, read on integers: [n >= 0] is a
    magnitude counted in units of [10^s] for a scale [s <= Etiny], and
    [t = Etiny - s] of its low digits lie below [Etiny].  The context
    keeps [prec] digits and nothing below [Etiny]: [quantum t n] low
    digits are rounded away. *)
Definition quantum (t n : Z) : Z := Z.max t (ndigits n - prec).

Definition round_at (t n : Z) : Z :=
  round_half_even n (quantum t n) * 10 ^ quantum t n.

(** The same for a signed integer: the sign is kept and the magnitude is
    rounded. *)
Definition round_signed (t z : Z) : Z := Z.sgn z * round_at t (Z.abs z).

End Digits.
(* ================================================================== *)
(** ** The part of Python's [decimal] module used by the code *)

Module PyDecimal.
Import Digits.

(** A finite [Decimal]: the number [coef * 10^expo].  The sign is carried
    by the coefficient, so the negative zero is not told apart from zero
    (they compare equal).  NaN and the infinities are left out. *)
Record Decimal : Type := mkDecimal { coef : Z; expo : Z }.

(** [Decimal._fix]: bring a result into the context.  A zero keeps its
    exponent inside [[Etiny, Emax]].  A result whose adjusted exponent is
    above [Emax] raises [Overflow] (trapped in the default context).
    Otherwise the coefficient keeps at most [prec] digits and no digit
    below [Etiny] (a subnormal result is rounded there, Underflow is not
    trapped); a carry out of the top digit is renormalised, and may
    overflow in its turn. *)
Definition fix_ (c e : Z) : result Decimal :=
  if c =? 0 then Ok (mkDecimal 0 (Z.min (Z.max e Etiny) Emax))
  else
    let n := Z.abs c in
    if Etop <? ndigits n + e - prec then Raise Overflow
    else
      let exp_min := Z.max (ndigits n + e - prec) Etiny in
      if e <? exp_min then
        let q := round_half_even n (exp_min - e) in
        if q =? 10 ^ prec then
          if Etop <? exp_min + 1 then Raise Overflow
          else Ok (mkDecimal (Z.sgn c * (q / 10)) (exp_min + 1))
        else Ok (mkDecimal (Z.sgn c * q) exp_min)
      else Ok (mkDecimal c e).

(** [Decimal(n)] for an [int]: exact. *)
Definition of_int (n : Z) : Decimal := mkDecimal n 0.

(** [Decimal(str(d))] for a value [d] that is a [Decimal] already: [str]
    prints every digit and the constructor reads them back without
    rounding and outside the context. *)
Definition of_str_of (d : Decimal) : Decimal := d.

(** The coefficient of [x] written at the exponent [s <= expo x]. *)
Definition scaled (s : Z) (x : Decimal) : Z := coef x * 10 ^ (expo x - s).

(** The exact product, the exact hundredth and the exact difference, with
    no rounding: what arithmetic on decimals of unbounded precision and
    range gives. *)
Definition exact_mul (x y : Decimal) : Decimal :=
  mkDecimal (coef x * coef y) (expo x + expo y).
Definition exact_div_100 (x : Decimal) : Decimal :=
  mkDecimal (coef x) (expo x - 2).

(** [x * y]: exact product, then [fix_]. *)
Definition mul (x y : Decimal) : result Decimal :=
  fix_ (coef x * coef y) (expo x + expo y).

(** One step of the loop that brings an exact quotient towards its ideal
    exponent: a trailing zero of the coefficient is dropped. *)
Definition strip_zero (ideal : Z) (d : Decimal) : Decimal :=
  if (expo d <? ideal) && (coef d mod 10 =? 0)
  then mkDecimal (coef d / 10) (expo d + 1)
  else d.

(** [x / 100] ([100] is converted with [Decimal(100)], of exponent 0): the
    quotient by a power of ten is exact in decimal; it is written with
    the exponent nearest to the ideal one, [expo x], that keeps it exact
    (at most two zeros to drop), then brought into the context. *)
Definition div_100 (x : Decimal) : result Decimal :=
  let d := strip_zero (expo x) (strip_zero (expo x)
             (mkDecimal (coef x) (expo x - 2))) in
  fix_ (coef d) (expo d).

(** [x - y]: operands aligned at the smaller exponent, exact difference,
    then [fix_]. *)
Definition sub (x y : Decimal) : result Decimal :=
  let m := Z.min (expo x) (expo y) in
  fix_ (scaled m x - scaled m y) m.

(** Numeric comparison ([<=], [<], [==] of the library): exact, outside
    the context. *)
Definition leb (x y : Decimal) : bool :=
  let m := Z.min (expo x) (expo y) in scaled m x <=? scaled m y.
Definition ltb (x y : Decimal) : bool :=
  let m := Z.min (expo x) (expo y) in scaled m x <? scaled m y.
Definition eqb (x y : Decimal) : bool :=
  let m := Z.min (expo x) (expo y) in scaled m x =? scaled m y.

Definition le (x y : Decimal) : Prop := leb x y = true.
Definition lt (x y : Decimal) : Prop := ltb x y = true.
Definition eqv (x y : Decimal) : Prop := eqb x y = true.

Definition zero : Decimal := of_int 0.
Definition hundred : Decimal := of_int 100.

(** The value of [x] brought into the context, read at the scale [s]
    (below [expo x] and below [Etiny]). *)
Definition rounded (s : Z) (x : Decimal) : Z :=
  round_signed (Etiny - s) (scaled s x).

(** The bound of the context at the scale [s]: [10^(Emax+1)]. *)
Definition bound (s : Z) : Z := 10 ^ (Emax + 1 - s).

(** [r] is what the context makes of a result of rounded value [v] at
    the scale [s]: the decimal of that value when it is below the bound,
    [Overflow] when it is not. *)
Definition outcome (s v : Z) (r : result Decimal) : Prop :=
  match r with
  | Ok d => s <= expo d /\ scaled s d = v /\ Z.abs v < bound s
  | Raise ex => ex = Overflow /\ bound s <= Z.abs v
  end.

(** A coefficient that the context holds without rounding. *)
Definition fits (x : Decimal) : Prop := ndigits (Z.abs (coef x)) <= prec.

(** A number that the context holds as it is: at most [prec] digits, no
    digit below [Etiny], adjusted exponent at most [Emax]. *)
Definition representable (x : Decimal) : Prop :=
  fits x /\ Etiny <= expo x /\ ndigits (Z.abs (coef x)) + expo x <= Emax + 1.

End PyDecimal.

Declare Scope dec_scope.
Delimit Scope dec_scope with dec.
Infix "<=" := PyDecimal.le : dec_scope.
Infix "<" := PyDecimal.lt : dec_scope.
Infix "==" := PyDecimal.eqv (at level 70, no associativity) : dec_scope.

(* ================================================================== *)
(** ** The invoice table *)

(** [BitcoinInvoice]: [bitcoin/models.py] is not among the sources, the
    fields are those that [create_invoice] sets. *)
Record BitcoinInvoice : Type := mkInvoice {
  amount : PyDecimal.Decimal;
  uuid : string;
  key : string;
  address : string;
  user : string
}.

(** The rows of the table, in the order of the database. *)
Definition Store : Type := list BitcoinInvoice.

Definition invoice_eqb (a b : BitcoinInvoice) : bool :=
  (PyDecimal.coef (amount a) =? PyDecimal.coef (amount b))
  && (PyDecimal.expo (amount a) =? PyDecimal.expo (amount b))
  && String.eqb (uuid a) (uuid b) && String.eqb (key a) (key b)
  && String.eqb (address a) (address b) && String.eqb (user a) (user b).

(** No row of the table has both the owner [who] and the identifier [id]. *)
Definition no_match (store : Store) (who id : string) : Prop :=
  forall i, In i store -> ~ (user i = who /\ uuid i = id).

(* ================================================================== *)
(** ** eterpay/utils.py *)

Module Utils.
Import PyDecimal.

(** [klass.objects.get(user=user, uuid=uuid)]: the one row that matches
    both, [DoesNotExist] when there is none, [MultipleObjectsReturned]
    when there are several. *)
Definition objects_get (store : Store) (user_ uuid_ : string)
  : result BitcoinInvoice :=
  match filter (fun i => String.eqb (user i) user_ && String.eqb (uuid i) uuid_)
               store with
  | [] => Raise DoesNotExist
  | [i] => Ok i
  | _ :: _ :: _ => Raise MultipleObjectsReturned
  end.

(** [get_object_or_none]: only [ObjectDoesNotExist] is caught. *)
Definition get_object_or_none (store : Store) (user_ uuid_ : string)
  : result (option BitcoinInvoice) :=
  match objects_get store user_ uuid_ with
  | Ok i => Ok (Some i)
  | Raise DoesNotExist => Ok None
  | Raise e => Raise e
  end.

(** [get_price_fee]:
    [Decimal(str(price)) * (Decimal(str(percent)) / 100)]; the quotient
    is computed before the product, and either may raise [Overflow]. *)
Definition get_price_fee (price percent : Decimal) : result Decimal :=
  let price_ := of_str_of price in
  hundredth <- div_100 (of_str_of percent) ;;
  mul price_ hundredth.

End Utils.

(* ================================================================== *)
(** ** The collaborators of the views: [bit], the settings, the response *)

Module Bit.

(** [bit.network.meta.Unspent]: the amount is in satoshi. *)
Record Unspent : Type := mkUnspent { amount : Z; confirmations : Z }.

(** An output of [send]: destination, amount, currency. *)
Definition output : Type := (string * PyDecimal.Decimal * string)%type.

(** What [wallet.send] does: the transaction id, or an exception with its
    text. *)
Inductive send_result : Type :=
| Sent (txid : string)
| Failed (text : string).

(** A wallet object built from a key: the two methods the views call.
    [get_unspents] is the snapshot that the call returns; a failure of
    the network in it is outside the model. *)
Record Wallet : Type := mkWallet {
  get_unspents : list Unspent;
  send : list output -> send_result
}.

End Bit.

Record Settings : Type := mkSettings { TEST : bool; BTC_CONFIRMATIONS : Z }.

(** Everything a request reaches outside the views. *)
Record World : Type := mkWorld {
  settings : Settings;
  PrivateKeyTestnet : string -> Bit.Wallet;
  PrivateKey : string -> Bit.Wallet;
  currency_to_satoshi_cached : PyDecimal.Decimal -> string -> Z
}.

(** The data of a [Response]. *)
Inductive payload : Type :=
| NoData
| ErrorData (error : string)
| IdData (id : string)
| InvoiceData (invoice : BitcoinInvoice).

Record Response : Type := mkResponse { data : payload; status : Z }.

(** Calls on the wallet that go to the network, in the order made. *)
Inductive wallet_call : Type :=
| GetUnspents (key_ : string)
| Send (key_ : string) (outputs : list Bit.output).

(** An entry of the body of a release request, after
    [Decimal(str(...))] of its ['amount'] and of its ['fee'].  A body that
    [json.loads] rejects, an item without these keys and a text that is
    no number are outside the model. *)
Record Entry : Type := mkEntry { e_amount : PyDecimal.Decimal; e_fee : PyDecimal.Decimal }.

(** The object [json.loads] returns: the keys in the order of the text. *)
Definition Vendors : Type := list (string * Entry).

Fixpoint dict_get (d : Vendors) (k : string) : result Entry :=
  match d with
  | [] => Raise (KeyError k)
  | (k', v) :: rest => if String.eqb k' k then Ok v else dict_get rest k
  end.

Definition dict_keys (d : Vendors) : list string := map fst d.

(* ================================================================== *)
(** ** bitcoin/views.py *)

Module Views.
Import PyDecimal Utils.

(** The names that the module binds at top level: its imports and its
    class.  [get_object_or_none] is the only name taken from
    [eterpay.utils]. *)
Definition views_globals : list string :=
  [ "bit"; "json"; "uuid4"; "Decimal"; "viewsets"; "api_view"; "action";
    "Response"; "IsAuthenticated"; "SessionAuthentication";
    "BasicAuthentication"; "TokenAuthentication";
    "currency_to_satoshi_cached"; "render"; "settings"; "BitcoinInvoice";
    "InvoiceSerializer"; "CreateInvoice"; "WithdrawInvoice";
    "get_object_or_none"; "ProjectViewSet" ]%string.

(** The look-up of the global name [get_price_fee] in a module whose top
    level binds [globals]; the repository defines the name once, in
    [eterpay/utils.py]. *)
Definition global_get_price_fee (globals : list string)
  : result (Decimal -> Decimal -> result Decimal) :=
  if existsb (String.eqb "get_price_fee") globals
  then Ok get_price_fee
  else Raise (NameError "get_price_fee").

Definition not_found : Response :=
  mkResponse (ErrorData "UUID does not belong to any of the invoices.") 400.

(** [bit.PrivateKeyTestnet(invoice.key)] or [bit.PrivateKey(invoice.key)]. *)
Definition wallet_of (w : World) (invoice : BitcoinInvoice) : Bit.Wallet :=
  if TEST (settings w) then PrivateKeyTestnet w (key invoice)
  else PrivateKey w (key invoice).

(** [utxo[-1]]. *)
Definition last_item {A : Type} (l : list A) : result A :=
  match nth_error l (List.length l - 1)%nat with
  | Some a => Ok a
  | None => Raise IndexError
  end.

(** [check_invoice], from [utxo = wallet.get_unspents()] on. *)
Definition check_utxo (w : World) (invoice : BitcoinInvoice)
  (utxo : list Bit.Unspent) : result Response :=
  if 0 <? Z.of_nat (List.length utxo) then
    last_utxo <- last_item utxo ;;
    let invoice_amount := currency_to_satoshi_cached w (amount invoice) "btc" in
    if Bit.amount last_utxo <? invoice_amount then
      Ok (mkResponse
            (ErrorData ("Payed amount is less (" ++ str_int (Bit.amount last_utxo)
                        ++ " < " ++ str_int invoice_amount ++ ")")%string) 400)
    else if Bit.confirmations last_utxo <? BTC_CONFIRMATIONS (settings w) then
      Ok (mkResponse
            (ErrorData ("Payment is not confirmed yet ("
                        ++ str_int (Bit.confirmations last_utxo) ++ " < "
                        ++ str_int (BTC_CONFIRMATIONS (settings w)) ++ ")")%string)
            400)
    else Ok (mkResponse NoData 200)
  else Ok (mkResponse (ErrorData "Amount is not payed") 400).

Definition check_invoice (w : World) (store : Store)
  (request_user uuid_ : string) : result Response * list wallet_call :=
  match get_object_or_none store request_user uuid_ with
  | Raise e => (Raise e, [])
  | Ok None => (Ok not_found, [])
  | Ok (Some invoice) =>
      let wallet := wallet_of w invoice in
      let utxo := Bit.get_unspents wallet in
      (check_utxo w invoice utxo, [GetUnspents (key invoice)])
  end.

(** [invoice.delete()]: the row leaves the table (rows are told apart by
    their fields). *)
Definition delete_row (store : Store) (invoice : BitcoinInvoice) : Store :=
  filter (fun i => negb (invoice_eqb i invoice)) store.

Definition delete_invoice (store : Store) (request_user uuid_ : string)
  : result Response * Store :=
  match get_object_or_none store request_user uuid_ with
  | Raise e => (Raise e, store)
  | Ok None => (Ok not_found, store)
  | Ok (Some invoice) =>
      (Ok (mkResponse NoData 200), delete_row store invoice)
  end.

Definition invoice_details (store : Store) (request_user uuid_ : string)
  : result Response * Store :=
  match get_object_or_none store request_user uuid_ with
  | Raise e => (Raise e, store)
  | Ok None => (Ok not_found, store)
  | Ok (Some invoice) => (Ok (mkResponse (InvoiceData invoice) 200), store)
  end.

(** The loop of [release_invoice]: [for vendor in vendors: ...], with the
    list [outputs] built so far. *)
Fixpoint release_loop (globals : list string) (vendors : Vendors)
  (todo : list string) (outputs : list Bit.output)
  : result (list Bit.output) :=
  match todo with
  | [] => Ok outputs
  | vendor :: rest =>
      entry <- dict_get vendors vendor ;;
      let amount_ := e_amount entry in
      let fee := e_fee entry in
      f <- global_get_price_fee globals ;;
      estimated_fee <- f amount_ fee ;;
      net <- sub amount_ estimated_fee ;;
      release_loop globals vendors rest
        (outputs ++ [(vendor, net, "btc"%string)])
  end.

(** [release_invoice] in a module whose top level binds [globals];
    [vendors] is [json.loads(request.body)]. *)
Definition release_invoice_in (globals : list string) (w : World)
  (store : Store) (request_user uuid_ : string) (vendors : Vendors)
  : result Response * list wallet_call :=
  match get_object_or_none store request_user uuid_ with
  | Raise e => (Raise e, [])
  | Ok None => (Ok not_found, [])
  | Ok (Some invoice) =>
      let wallet := wallet_of w invoice in
      match release_loop globals vendors (dict_keys vendors) [] with
      | Raise e => (Raise e, [])
      | Ok outputs =>
          (match Bit.send wallet outputs with
           | Bit.Sent txid => Ok (mkResponse (IdData txid) 200)
           | Bit.Failed text =>
               Ok (mkResponse (ErrorData ("Fatal error occurred: " ++ text)%string)
                             400)
           end,
           [Send (key invoice) outputs])
      end
  end.

(** [release_invoice] as the module is written. *)
Definition release_invoice : World -> Store -> string -> string -> Vendors
  -> result Response * list wallet_call :=
  release_invoice_in views_globals.

(** The same action in the module with [get_price_fee] imported next to
    [get_object_or_none]. *)
Definition release_invoice_imported : World -> Store -> string -> string
  -> Vendors -> result Response * list wallet_call :=
  release_invoice_in ("get_price_fee"%string :: views_globals).

End Views.

(* ================================================================== *)
(** ** The aggregate reading of a snapshot *)

Module Aggregate.

(** The amount received over all the outputs of a snapshot. *)
Definition total_received (utxo : list Bit.Unspent) : Z :=
  fold_right (fun u acc => Bit.amount u + acc) 0 utxo.

(** The smallest confirmation count of a non-empty snapshot. *)
Definition min_confirmations (utxo : list Bit.Unspent) : Z :=
  match utxo with
  | [] => 0
  | u :: rest => fold_right (fun v acc => Z.min (Bit.confirmations v) acc)
                            (Bit.confirmations u) rest
  end.

End Aggregate.

(* ================================================================== *)
(** ** Sample data for the closed statements *)

Module Sample.
Import PyDecimal.

(** [currency_to_satoshi_cached(amount, 'btc')] on amounts with at most
    eight decimals: the amount times [10^8]. *)
Definition to_satoshi (d : Decimal) (currency : string) : Z :=
  coef d * 10 ^ (expo d + 8).

Definition wallet (utxo : list Bit.Unspent) : Bit.Wallet :=
  Bit.mkWallet utxo (fun _ => Bit.Sent "txid").

(** A world whose wallets all hold the snapshot [utxo], with a threshold
    of three confirmations. *)
Definition world (utxo : list Bit.Unspent) : World :=
  mkWorld (mkSettings true 3) (fun _ => wallet utxo) (fun _ => wallet utxo)
          to_satoshi.

(** An invoice of 0.000001 BTC, 100 satoshi. *)
Definition invoice : BitcoinInvoice :=
  mkInvoice (mkDecimal 1 (-6)) "1f" "wif" "addr" "alice".

Definition store : Store := [invoice].

Definition two_partial : list Bit.Unspent :=
  [Bit.mkUnspent 60 6; Bit.mkUnspent 40 6].

(** [{"vendorA": {"amount": 1.00, "fee": 2}}]: [str(1.0)] is ["1.0"]. *)
Definition request_2 : Vendors :=
  [("vendorA"%string, mkEntry (mkDecimal 10 (-1)) (of_int 2))].

(** [{"vendorA": {"amount": 1, "fee": 150}}]. *)
Definition request_150 : Vendors :=
  [("vendorA"%string, mkEntry (of_int 1) (of_int 150))].

(** [{"amount": "0.12345678901234567", "fee": "1.2345678901234567"}]: an
    amount and a rate of seventeen digits each, given as strings. *)
Definition long_entry : Entry :=
  mkEntry (mkDecimal 12345678901234567 (-17))
          (mkDecimal 12345678901234567 (-16)).

(** An amount of two digits above the range of the context,
    [1E+1000001]. *)
Definition huge_amount : Decimal := mkDecimal 1 1000001.

End Sample.

(* ================================================================== *)
(** ** The reading of one output *)

Module SingleOutput.

(** The three-way answer of [check_invoice], with the output [u] in the
    place of [utxo[-1]]. *)
Definition decide_on (w : World) (invoice : BitcoinInvoice) (u : Bit.Unspent)
  : result Response :=
  let owed := currency_to_satoshi_cached w (amount invoice) "btc" in
  if Bit.amount u <? owed then
    Ok (mkResponse
          (ErrorData ("Payed amount is less (" ++ str_int (Bit.amount u)
                      ++ " < " ++ str_int owed ++ ")")%string) 400)
  else if Bit.confirmations u <? BTC_CONFIRMATIONS (settings w) then
    Ok (mkResponse
          (ErrorData ("Payment is not confirmed yet ("
                      ++ str_int (Bit.confirmations u) ++ " < "
                      ++ str_int (BTC_CONFIRMATIONS (settings w)) ++ ")")%string)
          400)
  else Ok (mkResponse NoData 200).

End SingleOutput.

(* ================================================================== *)
(** ** The net amount and the response of a release *)

Module Plan.
Import PyDecimal.

(** [amount - estimated_fee] as the loop of [release_invoice] writes it,
    with [get_price_fee] of [eterpay/utils.py] for the fee: the net
    amount of an entry. *)
Definition net_amount (e : Entry) : result Decimal :=
  estimated_fee <- Utils.get_price_fee (e_amount e) (e_fee e) ;;
  sub (e_amount e) estimated_fee.

(** An entry inside the bounds of a well-formed request: the rate in
    [[0, 100)], the amount not negative. *)
Definition in_bounds (e : Entry) : Prop :=
  le zero (e_amount e) /\ le zero (e_fee e) /\ lt (e_fee e) hundred.

(** The response that [release_invoice] builds from the result of
    [wallet.send]. *)
Definition response_of_send (r : Bit.send_result) : Response :=
  match r with
  | Bit.Sent txid => mkResponse (IdData txid) 200
  | Bit.Failed text =>
      mkResponse (ErrorData ("Fatal error occurred: " ++ text)%string) 400
  end.

(** The amount of an output of [send]. *)
Definition output_amount (o : Bit.output) : Decimal := snd (fst o).

(** The destination of an output of [send]. *)
Definition output_vendor (o : Bit.output) : string := fst (fst o).

End Plan.

(* ================================================================== *)
(** ** bitcoin/views.py: the listing and the other actions *)

Module Actions.
Import Utils Views.

(** [request.user]: [is_anonymous] holds of [AnonymousUser] only. *)
Inductive requester : Type :=
| AnonymousUser
| User (name : string).

(** [order_by('uuid')]: the rows sorted by the order [uuid_leb] that the
    database has on the column. *)
Fixpoint insert_row (uuid_leb : string -> string -> bool)
  (i : BitcoinInvoice) (rows : Store) : Store :=
  match rows with
  | [] => [i]
  | j :: rest =>
      if uuid_leb (uuid i) (uuid j) then i :: j :: rest
      else j :: insert_row uuid_leb i rest
  end.

Definition order_by_uuid (uuid_leb : string -> string -> bool)
  (rows : Store) : Store :=
  fold_right (insert_row uuid_leb) [] rows.

(** The class attribute [queryset]:
    [BitcoinInvoice.objects.all().order_by('uuid')]. *)
Definition queryset (uuid_leb : string -> string -> bool) (store : Store)
  : Store :=
  order_by_uuid uuid_leb store.

Definition get_queryset (uuid_leb : string -> string -> bool) (store : Store)
  (request_user : requester) : Store :=
  match request_user with
  | AnonymousUser => []
  | User name =>
      filter (fun i => String.eqb (user i) name) (queryset uuid_leb store)
  end.

(** A serializer after [is_valid()]: its [data], or its [errors] (as the
    text of the object).  [bitcoin/serializers.py] is not among the
    sources. *)
Inductive serializer (A : Type) : Type :=
| Valid (data_ : A)
| Invalid (errors : string).
Arguments Valid {A} data_.
Arguments Invalid {A} errors.

(** What [wallet.get_balance] does: the balance as text, or an
    exception. *)
Inductive balance_result : Type :=
| Balance (text : string)
| BalanceFailed.

(** The methods of a wallet that these actions call, by network and key:
    [get_balance(currency)] and [send(outputs, leftover=...)]. *)
Record Library : Type := mkLibrary {
  world : World;
  get_balance : bool -> string -> string -> balance_result;
  send_leftover : bool -> string -> list Bit.output -> string -> Bit.send_result
}.

(** The data of the responses of these actions: those of the other
    actions, [{'amount': ...}] and [{'error': serializer.errors}]. *)
Inductive reply_data : Type :=
| Plain (d : payload)
| AmountData (amount_ : string)
| ErrorsData (errors : string).

Record Reply : Type := mkReply { body : reply_data; code : Z }.

Definition reply_not_found : Reply :=
  mkReply (Plain (data not_found)) (status not_found).

(** Calls on the wallet that go to the network. *)
Inductive call : Type :=
| Unspents (key_ : string)
| GetBalance (key_ currency : string)
| SendLeftover (key_ : string) (outputs : list Bit.output) (leftover : string).

Definition invoice_balance (l : Library) (store : Store)
  (request_user uuid_ : string) : result Reply * list call :=
  match get_object_or_none store request_user uuid_ with
  | Raise e => (Raise e, [])
  | Ok None => (Ok reply_not_found, [])
  | Ok (Some invoice) =>
      (match get_balance l (TEST (settings (world l))) (key invoice) "btc" with
       | Balance text => Ok (mkReply (AmountData text) 200)
       | BalanceFailed =>
           Ok (mkReply (Plain (ErrorData "Invalid currency provided.")) 400)
       end,
       [Unspents (key invoice); GetBalance (key invoice) "btc"])
  end.

Definition withdraw_invoice (l : Library) (store : Store)
  (request_user uuid_ : string) (posted : serializer string)
  : result Reply * list call :=
  match posted with
  | Invalid errors => (Ok (mkReply (ErrorsData errors) 400), [])
  | Valid address_ =>
      match get_object_or_none store request_user uuid_ with
      | Raise e => (Raise e, [])
      | Ok None => (Ok reply_not_found, [])
      | Ok (Some invoice) =>
          (match send_leftover l (TEST (settings (world l))) (key invoice)
                   [] address_ with
           | Bit.Sent txid => Ok (mkReply (Plain (IdData txid)) 200)
           | Bit.Failed text =>
               Ok (mkReply
                     (Plain (ErrorData ("Fatal error occurred: " ++ text)%string))
                     400)
           end,
           [SendLeftover (key invoice) [] address_])
      end
  end.

(** [invoice.save()] of a new instance whose [uuid] no row has: a row is
    inserted. *)
Definition save (store : Store) (invoice : BitcoinInvoice) : Store :=
  store ++ [invoice].

(** [create_invoice]; [uuid_], [key_] and [address_] are the values of
    [uuid4()], [wallet.to_wif()] and [wallet.address] for the new key. *)
Definition create_invoice (store : Store) (request_user : string)
  (posted : serializer PyDecimal.Decimal) (uuid_ key_ address_ : string)
  : result Reply * Store :=
  match posted with
  | Invalid errors => (Ok (mkReply (ErrorsData errors) 400), store)
  | Valid amount_ =>
      let invoice := mkInvoice amount_ uuid_ key_ address_ request_user in
      (Ok (mkReply (Plain (InvoiceData invoice)) 200), save store invoice)
  end.

(** The key that a call uses. *)
Definition call_key (c : call) : string :=
  match c with
  | Unspents k => k
  | GetBalance k _ => k
  | SendLeftover k _ _ => k
  end.

End Actions.

(** The key that a call of [check_invoice] or [release_invoice] uses. *)
Definition wallet_call_key (c : wallet_call) : string :=
  match c with
  | GetUnspents k => k
  | Send k _ => k
  end.

(** The key [k] is the key of an invoice of [who] with the identifier
    [id]. *)
Definition owned (store : Store) (who id k : string) : Prop :=
  exists i, In i store /\ user i = who /\ uuid i = id /\ key i = k.

(* ================================================================== *)
(** * Properties *)

(** ** The settlement check *)

Section Settlement.
Import Views.

Lemma last_item_snoc {A : Type} (l : list A) (a : A) :
  last_item (l ++ [a]) = Ok a.
Proof.
  unfold last_item.
  rewrite length_app; simpl.
  replace (List.length l + 1 - 1)%nat with (List.length l) by lia.
  rewrite nth_error_app2 by lia.
  now rewrite Nat.sub_diag.
Qed.

Lemma length_snoc_pos {A : Type} (l : list A) (a : A) :
  (0 <? Z.of_nat (List.length (l ++ [a]))) = true.
Proof.
  rewrite length_app; simpl. apply Z.ltb_lt. lia.
Qed.

Lemma check_utxo_snoc (w : World) (invoice : BitcoinInvoice)
  (before : list Bit.Unspent) (u : Bit.Unspent) :
  check_utxo w invoice (before ++ [u]) = SingleOutput.decide_on w invoice u.
Proof.
  unfold check_utxo.
  rewrite length_snoc_pos, last_item_snoc.
  reflexivity.
Qed.

Lemma check_invoice_found (w : World) (store : Store) (who id : string)
  (invoice : BitcoinInvoice) :
  Utils.get_object_or_none store who id = Ok (Some invoice) ->
  check_invoice w store who id =
    (check_utxo w invoice (Bit.get_unspents (wallet_of w invoice)),
     [GetUnspents (key invoice)]).
Proof.
  intros H. unfold check_invoice. now rewrite H.
Qed.

End Settlement.

(** C1 (as amended).  For every non-empty snapshot, the check decides from
    the last output alone: its amount against the amount owed, then its
    confirmation count against the threshold.  On a snapshot of one output
    this is the total received and the smallest confirmation count. *)
Theorem check_utxo_decides_on_last (w : World) (invoice : BitcoinInvoice)
  (before : list Bit.Unspent) (u : Bit.Unspent) :
  Views.check_utxo w invoice (before ++ [u]) = SingleOutput.decide_on w invoice u
  /\ Aggregate.total_received [u] = Bit.amount u
  /\ Aggregate.min_confirmations [u] = Bit.confirmations u.
Proof.
  split; [apply check_utxo_snoc|].
  split; [simpl; lia | reflexivity].
Qed.

(** C1 (as stated) fails: two outputs of 60 and 40 satoshi, six
    confirmations each, reach the 100 satoshi owed in total, and the
    smallest confirmation count passes the threshold of three; the check
    answers that the amount payed is less. *)
Lemma check_invoice_ignores_earlier_outputs :
  currency_to_satoshi_cached (Sample.world Sample.two_partial)
    (amount Sample.invoice) "btc" = 100
  /\ Aggregate.total_received Sample.two_partial = 100
  /\ BTC_CONFIRMATIONS (settings (Sample.world Sample.two_partial))
     <= Aggregate.min_confirmations Sample.two_partial
  /\ Views.check_invoice (Sample.world Sample.two_partial) Sample.store
       "alice" "1f"
     = (Ok (mkResponse (ErrorData "Payed amount is less (40 < 100)") 400),
        [GetUnspents "wif"]).
Proof.
  repeat split; try reflexivity. vm_compute. discriminate.
Qed.

(** C4.  Two non-empty snapshots whose last outputs have the same amount
    and the same confirmation count get the same answer, whatever the
    outputs before them. *)
Theorem check_utxo_last_only (w : World) (invoice : BitcoinInvoice)
  (before1 before2 : list Bit.Unspent) (u1 u2 : Bit.Unspent) :
  Bit.amount u1 = Bit.amount u2 ->
  Bit.confirmations u1 = Bit.confirmations u2 ->
  Views.check_utxo w invoice (before1 ++ [u1])
  = Views.check_utxo w invoice (before2 ++ [u2]).
Proof.
  intros Ha Hc.
  rewrite !check_utxo_snoc.
  unfold SingleOutput.decide_on.
  now rewrite Ha, Hc.
Qed.

Lemma check_utxo_last_only_witness :
  Views.check_utxo (Sample.world []) Sample.invoice
    ([Bit.mkUnspent 60 6] ++ [Bit.mkUnspent 40 6])
  = Views.check_utxo (Sample.world []) Sample.invoice
    ([Bit.mkUnspent 500 0; Bit.mkUnspent 1 1] ++ [Bit.mkUnspent 40 6]).
Proof.
  apply (check_utxo_last_only (Sample.world []) Sample.invoice
           [Bit.mkUnspent 60 6] [Bit.mkUnspent 500 0; Bit.mkUnspent 1 1]
           (Bit.mkUnspent 40 6) (Bit.mkUnspent 40 6)); reflexivity.
Defined.

(** C9.  When the invoice is found and the wallet returns no output, the
    check answers the error "Amount is not payed", with status 400. *)
Theorem check_invoice_empty_snapshot (w : World) (store : Store)
  (who id : string) (invoice : BitcoinInvoice) :
  Utils.get_object_or_none store who id = Ok (Some invoice) ->
  Bit.get_unspents (Views.wallet_of w invoice) = [] ->
  Views.check_invoice w store who id
  = (Ok (mkResponse (ErrorData "Amount is not payed") 400),
     [GetUnspents (key invoice)]).
Proof.
  intros Hfound Hempty.
  rewrite (check_invoice_found w store who id invoice Hfound), Hempty.
  reflexivity.
Qed.

Lemma check_invoice_empty_snapshot_witness :
  Views.check_invoice (Sample.world []) Sample.store "alice" "1f"
  = (Ok (mkResponse (ErrorData "Amount is not payed") 400),
     [GetUnspents (key Sample.invoice)]).
Proof.
  apply (check_invoice_empty_snapshot (Sample.world []) Sample.store
           "alice" "1f" Sample.invoice); reflexivity.
Defined.

(** ** Looking an invoice up *)

Section Lookup.
Import Utils.

Lemma filter_no_match (store : Store) (who id : string) :
  no_match store who id ->
  filter (fun i => String.eqb (user i) who && String.eqb (uuid i) id) store = [].
Proof.
  induction store as [|i rest IH]; intros H; simpl; [reflexivity|].
  destruct (String.eqb_spec (user i) who) as [Hu|Hu]; simpl.
  - destruct (String.eqb_spec (uuid i) id) as [Hi|Hi].
    + exfalso. apply (H i); [now left | now split].
    + apply IH. intros j Hj. apply H. now right.
  - apply IH. intros j Hj. apply H. now right.
Qed.

Lemma get_object_or_none_no_match (store : Store) (who id : string) :
  no_match store who id -> get_object_or_none store who id = Ok None.
Proof.
  intros H. unfold get_object_or_none, objects_get.
  now rewrite (filter_no_match store who id H).
Qed.

End Lookup.

(** C10.  When no invoice has both the identifier and the owner, the
    details and the delete actions answer the error "UUID does not belong
    to any of the invoices." with status 400, and the table is as it
    was. *)
Theorem details_delete_not_found (store : Store) (who id : string) :
  no_match store who id ->
  Views.invoice_details store who id = (Ok Views.not_found, store)
  /\ Views.delete_invoice store who id = (Ok Views.not_found, store)
  /\ Views.not_found
     = mkResponse (ErrorData "UUID does not belong to any of the invoices.") 400.
Proof.
  intros H.
  unfold Views.invoice_details, Views.delete_invoice.
  rewrite (get_object_or_none_no_match store who id H).
  repeat split.
Qed.

Lemma details_delete_not_found_witness :
  Views.invoice_details Sample.store "bob" "1f" = (Ok Views.not_found, Sample.store)
  /\ Views.delete_invoice Sample.store "bob" "1f" = (Ok Views.not_found, Sample.store)
  /\ Views.not_found
     = mkResponse (ErrorData "UUID does not belong to any of the invoices.") 400.
Proof.
  apply (details_delete_not_found Sample.store "bob" "1f").
  intros i [<-|[]] [Hu _]. discriminate Hu.
Defined.


(** ** The release action *)

Section Release.
Import Views Plan.

Lemma global_get_price_fee_views :
  global_get_price_fee views_globals = Raise (NameError "get_price_fee").
Proof. reflexivity. Qed.

Lemma global_get_price_fee_bound (globals : list string) :
  In "get_price_fee"%string globals ->
  global_get_price_fee globals = Ok Utils.get_price_fee.
Proof.
  intros H. unfold global_get_price_fee.
  replace (existsb (String.eqb "get_price_fee") globals) with true; [reflexivity|].
  symmetry. apply existsb_exists.
  exists "get_price_fee"%string. split; [assumption | apply String.eqb_refl].
Qed.

(** Whatever the module binds, the name is [get_price_fee] of
    [eterpay/utils.py] or is not bound. *)
Lemma global_get_price_fee_cases (globals : list string) :
  global_get_price_fee globals = Ok Utils.get_price_fee
  \/ global_get_price_fee globals = Raise (NameError "get_price_fee").
Proof.
  unfold global_get_price_fee. destruct (existsb _ globals); auto.
Qed.

Lemma dict_get_head (k : string) (e : Entry) (rest : Vendors) :
  dict_get ((k, e) :: rest) k = Ok e.
Proof. simpl. now rewrite String.eqb_refl. Qed.

Lemma dict_get_in (d : Vendors) (k : string) (e : Entry) :
  dict_get d k = Ok e -> In (k, e) d.
Proof.
  induction d as [|[k' e'] rest IH]; simpl; [discriminate|].
  destruct (String.eqb_spec k' k) as [->|Hne]; intros H.
  - injection H as ->. now left.
  - right. now apply IH.
Qed.

(** The loop in the module as written: the first item stops it. *)
Lemma release_loop_views (k : string) (e : Entry) (rest : Vendors)
  (outputs : list Bit.output) :
  release_loop views_globals ((k, e) :: rest) (dict_keys ((k, e) :: rest)) outputs
  = Raise (NameError "get_price_fee").
Proof.
  simpl. now rewrite String.eqb_refl.
Qed.

(** A loop that ends has added one output for each key, in order, and
    each output carries the net amount of the entry of its key. *)
Lemma release_loop_outputs (globals : list string) (vendors : Vendors)
  (todo : list string) (outputs outs : list Bit.output) :
  release_loop globals vendors todo outputs = Ok outs ->
  exists added,
    outs = outputs ++ added
    /\ map output_vendor added = todo
    /\ Forall (fun o => exists e, In (output_vendor o, e) vendors
                                  /\ net_amount e = Ok (output_amount o)) added.
Proof.
  revert outputs.
  induction todo as [|k rest IH]; intros outputs H; simpl in H.
  - injection H as <-. exists []. rewrite app_nil_r. repeat split. constructor.
  - destruct (dict_get vendors k) as [e|ex] eqn:Hk; [|discriminate].
    simpl in H.
    destruct (global_get_price_fee_cases globals) as [Hg|Hg];
      rewrite Hg in H; [|discriminate].
    simpl in H.
    destruct (Utils.get_price_fee (e_amount e) (e_fee e)) as [fee|ex] eqn:Hfee;
      [|discriminate].
    simpl in H.
    destruct (PyDecimal.sub (e_amount e) fee) as [net|ex] eqn:Hnet;
      [|discriminate].
    simpl in H.
    destruct (IH _ H) as [added [Hout [Hkeys Hall]]].
    exists ((k, net, "btc"%string) :: added).
    split; [now rewrite Hout, <- app_assoc|].
    split; [simpl; now rewrite Hkeys|].
    constructor; [|assumption].
    exists e. split.
    + apply dict_get_in. exact Hk.
    + unfold net_amount. rewrite Hfee. simpl. exact Hnet.
Qed.


(** The release as written, on a body with one item or more: no wallet
    call, and no response but the one of an invoice that is not found. *)
Lemma release_invoice_nonempty (w : World) (store : Store) (who id : string)
  (vendors : Vendors) (v : string) (e : Entry) :
  In (v, e) vendors ->
  snd (release_invoice w store who id vendors) = []
  /\ (forall r, fst (release_invoice w store who id vendors) = Ok r ->
                r = not_found)
  /\ (forall i, Utils.get_object_or_none store who id = Ok (Some i) ->
                release_invoice w store who id vendors
                = (Raise (NameError "get_price_fee"), [])).
Proof.
  intros Hin. destruct vendors as [|[k0 e0] rest]; [contradiction|].
  unfold release_invoice, release_invoice_in.
  destruct (Utils.get_object_or_none store who id) as [[i|]|ex].
  - rewrite release_loop_views. repeat split.
    intros r H. discriminate.
  - repeat split.
    + intros r H. simpl in H. congruence.
    + intros i H. discriminate.
  - repeat split.
    + intros r H. discriminate.
    + intros i H. discriminate.
Qed.

End Release.

(** ** Counting decimal digits *)

Section DigitFacts.
Import Digits.

Lemma pow10_pos (k : Z) : 0 <= k -> 0 < 10 ^ k.
Proof. intros. apply Z.pow_pos_nonneg; lia. Qed.

Lemma pow10_succ (k : Z) : 0 <= k -> 10 ^ (k + 1) = 10 * 10 ^ k.
Proof. intros. rewrite Z.pow_add_r by lia. lia. Qed.

Lemma pow10_split (a b : Z) : 0 <= a -> 0 <= b -> 10 ^ (a + b) = 10 ^ a * 10 ^ b.
Proof. intros. apply Z.pow_add_r; lia. Qed.

Lemma digits_aux_spec (fuel : nat) :
  forall n, 0 < n < 2 ^ (Z.of_nat fuel + 1) ->
  1 <= digits_aux fuel n
  /\ 10 ^ (digits_aux fuel n - 1) <= n < 10 ^ digits_aux fuel n.
Proof.
  induction fuel as [|f IH]; intros n Hn.
  - simpl in *. lia.
  - cbn [digits_aux]. destruct (Z.ltb_spec n 10) as [Hlt|Hge].
    + simpl. lia.
    + assert (Hdiv : 0 < n / 10 < 2 ^ (Z.of_nat f + 1)).
      { split.
        - apply Z.div_str_pos. lia.
        - apply Z.div_lt_upper_bound; [lia|].
          replace (Z.of_nat (S f) + 1) with ((Z.of_nat f + 1) + 1) in Hn by lia.
          rewrite Z.pow_add_r in Hn by lia. lia. }
      destruct (IH _ Hdiv) as [H1 [Hlo Hhi]].
      set (d := digits_aux f (n / 10)) in *.
      split; [lia|].
      replace (1 + d - 1) with ((d - 1) + 1) by lia.
      replace (1 + d) with (d + 1) by lia.
      rewrite !pow10_succ by lia.
      pose proof (Z.div_mod n 10 ltac:(lia)) as Hdm.
      pose proof (Z.mod_pos_bound n 10 ltac:(lia)) as Hm.
      lia.
Qed.

Lemma ndigits_spec (n : Z) :
  0 < n -> 10 ^ (ndigits n - 1) <= n < 10 ^ ndigits n.
Proof.
  intros Hn. unfold ndigits.
  apply digits_aux_spec.
  rewrite Z2Nat.id by apply Z.log2_nonneg.
  split; [assumption|].
  replace (Z.log2 n + 1) with (Z.succ (Z.log2 n)) by lia.
  now apply Z.log2_spec.
Qed.

Lemma ndigits_pos (n : Z) : 1 <= ndigits n.
Proof.
  destruct (Z.ltb_spec 0 n) as [Hn|Hn].
  - unfold ndigits. apply digits_aux_spec.
    rewrite Z2Nat.id by apply Z.log2_nonneg.
    split; [assumption|].
    replace (Z.log2 n + 1) with (Z.succ (Z.log2 n)) by lia.
    now apply Z.log2_spec.
  - unfold ndigits. rewrite Z.log2_nonpos by assumption. simpl. lia.
Qed.

Lemma ndigits_unique (n d : Z) :
  0 < n -> 10 ^ (d - 1) <= n < 10 ^ d -> ndigits n = d.
Proof.
  intros Hn [Hlo Hhi].
  pose proof (ndigits_spec n Hn) as [Slo Shi].
  pose proof (ndigits_pos n) as Hp.
  assert (Hd : 1 <= d).
  { destruct (Z.ltb_spec d 1); [|assumption].
    destruct (Z.ltb_spec d 0).
    - rewrite Z.pow_neg_r in Hhi by assumption. lia.
    - replace d with 0 in Hhi by lia. simpl in Hhi. lia. }
  destruct (Z.lt_trichotomy (ndigits n) d) as [Hlt|[Heq|Hgt]]; [|assumption|].
  - assert (10 ^ ndigits n <= 10 ^ (d - 1)) by (apply Z.pow_le_mono_r; lia). lia.
  - assert (10 ^ d <= 10 ^ (ndigits n - 1)) by (apply Z.pow_le_mono_r; lia). lia.
Qed.

Lemma ndigits_mono (a b : Z) : 0 <= a <= b -> ndigits a <= ndigits b.
Proof.
  intros [Ha Hab].
  destruct (Z.eq_dec a 0) as [->|Hne].
  - change (ndigits 0) with 1. apply ndigits_pos.
  - pose proof (ndigits_spec a ltac:(lia)) as [Alo Ahi].
    pose proof (ndigits_spec b ltac:(lia)) as [Blo Bhi].
    pose proof (ndigits_pos b).
    destruct (Z.leb_spec (ndigits a) (ndigits b)); [assumption|].
    assert (10 ^ ndigits b <= 10 ^ (ndigits a - 1)) by (apply Z.pow_le_mono_r; lia).
    lia.
Qed.

Lemma ndigits_shift (n j : Z) :
  0 < n -> 0 <= j -> ndigits (n * 10 ^ j) = ndigits n + j.
Proof.
  intros Hn Hj.
  pose proof (ndigits_spec n Hn) as [Lo Hi].
  pose proof (ndigits_pos n) as Hp.
  pose proof (pow10_pos j Hj) as Pj.
  apply ndigits_unique; [nia|].
  replace (ndigits n + j - 1) with ((ndigits n - 1) + j) by lia.
  rewrite !pow10_split by lia. nia.
Qed.

Lemma ndigits_mul (a b : Z) :
  0 <= a -> 0 <= b -> ndigits (a * b) <= ndigits a + ndigits b.
Proof.
  intros Ha Hb.
  pose proof (ndigits_pos a) as Pa. pose proof (ndigits_pos b) as Pb.
  destruct (Z.eq_dec a 0) as [->|Na]; [rewrite Z.mul_0_l; change (ndigits 0) with 1; lia|].
  destruct (Z.eq_dec b 0) as [->|Nb]; [rewrite Z.mul_0_r; change (ndigits 0) with 1; lia|].
  pose proof (ndigits_spec a ltac:(lia)) as [_ Ahi].
  pose proof (ndigits_spec b ltac:(lia)) as [_ Bhi].
  pose proof (ndigits_spec (a * b) ltac:(nia)) as [Lo _].
  destruct (Z.leb_spec (ndigits (a * b)) (ndigits a + ndigits b)); [assumption|].
  assert (10 ^ (ndigits a + ndigits b) <= 10 ^ (ndigits (a * b) - 1))
    by (apply Z.pow_le_mono_r; lia).
  rewrite pow10_split in * by lia. nia.
Qed.

End DigitFacts.


(** ** Rounding in the context *)

Section RoundFacts.
Import Digits.

Lemma rhe_bounds (n k : Z) :
  n / 10 ^ k <= round_half_even n k <= n / 10 ^ k + 1.
Proof.
  unfold round_half_even.
  destruct ((10 ^ k <? 2 * (n mod 10 ^ k))
            || ((10 ^ k =? 2 * (n mod 10 ^ k)) && Z.odd (n / 10 ^ k))); lia.
Qed.

Lemma rhe_mono (n1 n2 k : Z) :
  0 <= k -> n1 <= n2 -> round_half_even n1 k <= round_half_even n2 k.
Proof.
  intros Hk Hn.
  pose proof (pow10_pos k Hk) as Pm.
  assert (Hq : n1 / 10 ^ k <= n2 / 10 ^ k) by (apply Z.div_le_mono; lia).
  destruct (Z.eq_dec (n1 / 10 ^ k) (n2 / 10 ^ k)) as [Heq|Hne].
  - pose proof (Z.div_mod n1 (10 ^ k) ltac:(lia)) as D1.
    pose proof (Z.div_mod n2 (10 ^ k) ltac:(lia)) as D2.
    assert (Hr : n1 mod 10 ^ k <= n2 mod 10 ^ k) by nia.
    unfold round_half_even. rewrite Heq.
    destruct (Z.ltb_spec (10 ^ k) (2 * (n1 mod 10 ^ k)));
      destruct (Z.ltb_spec (10 ^ k) (2 * (n2 mod 10 ^ k)));
      destruct (Z.eqb_spec (10 ^ k) (2 * (n1 mod 10 ^ k)));
      destruct (Z.eqb_spec (10 ^ k) (2 * (n2 mod 10 ^ k)));
      destruct (Z.odd (n2 / 10 ^ k)); simpl; lia.
  - pose proof (rhe_bounds n1 k). pose proof (rhe_bounds n2 k). lia.
Qed.

Lemma rhe_exact (a k : Z) :
  0 <= k -> round_half_even (a * 10 ^ k) k = a.
Proof.
  intros Hk. pose proof (pow10_pos k Hk) as Pm.
  unfold round_half_even.
  rewrite Z.div_mul by lia. rewrite Z.mod_mul by lia.
  destruct (Z.ltb_spec (10 ^ k) (2 * 0)); [lia|].
  destruct (Z.eqb_spec (10 ^ k) (2 * 0)); [lia|]. reflexivity.
Qed.

Lemma rhe_shift (n k j : Z) :
  0 <= k -> 0 <= j ->
  round_half_even (n * 10 ^ j) (k + j) = round_half_even n k.
Proof.
  intros Hk Hj.
  pose proof (pow10_pos k Hk) as Pk. pose proof (pow10_pos j Hj) as Pj.
  unfold round_half_even.
  rewrite pow10_split by lia.
  rewrite Z.div_mul_cancel_r by lia.
  rewrite Z.mul_mod_distr_r by lia.
  replace (10 ^ k * 10 ^ j <? 2 * (n mod 10 ^ k * 10 ^ j))
    with (10 ^ k <? 2 * (n mod 10 ^ k)).
  2:{ destruct (Z.ltb_spec (10 ^ k) (2 * (n mod 10 ^ k)));
      destruct (Z.ltb_spec (10 ^ k * 10 ^ j) (2 * (n mod 10 ^ k * 10 ^ j)));
      try reflexivity; nia. }
  replace (10 ^ k * 10 ^ j =? 2 * (n mod 10 ^ k * 10 ^ j))
    with (10 ^ k =? 2 * (n mod 10 ^ k)).
  2:{ destruct (Z.eqb_spec (10 ^ k) (2 * (n mod 10 ^ k)));
      destruct (Z.eqb_spec (10 ^ k * 10 ^ j) (2 * (n mod 10 ^ k * 10 ^ j)));
      try reflexivity; nia. }
  reflexivity.
Qed.

(** Below half of the unit, a magnitude rounds to nothing. *)
Lemma rhe_small (n k : Z) :
  0 <= k -> 0 <= n -> 2 * n < 10 ^ k -> round_half_even n k = 0.
Proof.
  intros Hk Hn Hlt. unfold round_half_even.
  rewrite Z.div_small, Z.mod_small by lia.
  destruct (Z.ltb_spec (10 ^ k) (2 * n)); [lia|].
  destruct (Z.eqb_spec (10 ^ k) (2 * n)); [lia|]. reflexivity.
Qed.

Lemma quantum_nonneg (t n : Z) : 0 <= t -> 0 <= quantum t n.
Proof. unfold quantum. lia. Qed.

Lemma rhe_0 (k : Z) : round_half_even 0 k = 0.
Proof.
  unfold round_half_even. rewrite Zdiv_0_l, Zmod_0_l. simpl.
  rewrite andb_false_r, orb_false_r.
  pose proof (Z.pow_nonneg 10 k ltac:(lia)).
  destruct (Z.ltb_spec (10 ^ k) 0); [lia | reflexivity].
Qed.

Lemma round_at_0 (t : Z) : round_at t 0 = 0.
Proof. unfold round_at. now rewrite rhe_0. Qed.

Lemma round_at_nonneg (t n : Z) : 0 <= t -> 0 <= n -> 0 <= round_at t n.
Proof.
  intros Ht Hn. unfold round_at.
  pose proof (quantum_nonneg t n Ht) as Hk.
  pose proof (pow10_pos _ Hk) as Pk.
  pose proof (rhe_bounds n (quantum t n)) as [Rlo _].
  assert (0 <= n / 10 ^ quantum t n) by (apply Z.div_pos; lia).
  nia.
Qed.

Lemma round_at_upper (t n : Z) :
  0 <= t -> 0 < n -> round_at t n <= 10 ^ ndigits n.
Proof.
  intros Ht Hn.
  pose proof (ndigits_spec n Hn) as [_ Hi].
  pose proof (ndigits_pos n) as Hd.
  pose proof (quantum_nonneg t n Ht) as Hk.
  unfold round_at. set (k := quantum t n) in *.
  pose proof (pow10_pos k Hk) as Pk.
  destruct (Z.leb_spec k (ndigits n)) as [Hle|Hgt].
  - assert (E : 10 ^ ndigits n = 10 ^ (ndigits n - k) * 10 ^ k).
    { rewrite <- pow10_split by lia. f_equal. lia. }
    pose proof (pow10_pos (ndigits n - k) ltac:(lia)) as Pd.
    assert (Q : n / 10 ^ k < 10 ^ (ndigits n - k))
      by (apply Z.div_lt_upper_bound; lia).
    pose proof (rhe_bounds n k) as [_ Rhi].
    rewrite E. nia.
  - rewrite rhe_small; [pose proof (pow10_pos (ndigits n) ltac:(lia)); lia|lia|lia|].
    assert (10 ^ (ndigits n + 1) <= 10 ^ k) by (apply Z.pow_le_mono_r; lia).
    rewrite pow10_succ in * by lia. lia.
Qed.

Lemma round_at_lower (t n : Z) :
  0 <= t -> 0 < n -> t <= ndigits n - prec ->
  10 ^ (ndigits n - 1) <= round_at t n.
Proof.
  intros Ht Hn Hnormal.
  pose proof (ndigits_spec n Hn) as [Lo _].
  unfold round_at, quantum.
  replace (Z.max t (ndigits n - prec)) with (ndigits n - prec) by lia.
  set (k := ndigits n - prec) in *.
  pose proof (pow10_pos k ltac:(lia)) as Pk.
  assert (E : 10 ^ (ndigits n - 1) = 10 ^ (prec - 1) * 10 ^ k).
  { rewrite <- pow10_split by (unfold prec; lia). f_equal. unfold k. lia. }
  rewrite E in *.
  assert (Q : 10 ^ (prec - 1) <= n / 10 ^ k)
    by (apply Z.div_le_lower_bound; lia).
  pose proof (rhe_bounds n k) as [Rlo _]. nia.
Qed.

Lemma round_at_mono (t a b : Z) :
  0 <= t -> 0 <= a <= b -> round_at t a <= round_at t b.
Proof.
  intros Ht [Ha Hab].
  destruct (Z.eq_dec a 0) as [->|Hne].
  - rewrite round_at_0. apply round_at_nonneg; lia.
  - pose proof (ndigits_mono a b ltac:(lia)) as Hd.
    destruct (Z.eq_dec (quantum t a) (quantum t b)) as [Heq|Hlt].
    + unfold round_at. rewrite Heq.
      pose proof (quantum_nonneg t b Ht) as Hk.
      pose proof (pow10_pos _ Hk).
      pose proof (rhe_mono a b (quantum t b) Hk Hab). nia.
    + assert (Hnormal : t <= ndigits b - prec /\ ndigits a < ndigits b)
        by (unfold quantum in Hlt; lia).
      destruct Hnormal as [Hn Hdd].
      pose proof (round_at_upper t a Ht ltac:(lia)) as Ahi.
      pose proof (round_at_lower t b Ht ltac:(lia) Hn) as Blo.
      pose proof (ndigits_pos a).
      assert (10 ^ ndigits a <= 10 ^ (ndigits b - 1))
        by (apply Z.pow_le_mono_r; lia).
      lia.
Qed.

Lemma round_at_shift (t n j : Z) :
  0 <= t -> 0 <= n -> 0 <= j ->
  round_at (t + j) (n * 10 ^ j) = round_at t n * 10 ^ j.
Proof.
  intros Ht Hn Hj.
  destruct (Z.eq_dec n 0) as [->|Hne].
  - rewrite Z.mul_0_l, !round_at_0. reflexivity.
  - unfold round_at, quantum.
    rewrite ndigits_shift by lia.
    replace (Z.max (t + j) (ndigits n + j - prec))
      with (Z.max t (ndigits n - prec) + j) by lia.
    rewrite rhe_shift by lia.
    rewrite pow10_split by lia. lia.
Qed.

(** A magnitude that has nothing to round away is kept. *)
Lemma round_at_exact (t m j : Z) :
  0 <= t -> 0 <= j -> quantum t (m * 10 ^ j) <= j ->
  round_at t (m * 10 ^ j) = m * 10 ^ j.
Proof.
  intros Ht Hj Hq. unfold round_at.
  pose proof (quantum_nonneg t (m * 10 ^ j) Ht) as Hk.
  set (k := quantum t (m * 10 ^ j)) in *.
  assert (E : m * 10 ^ j = (m * 10 ^ (j - k)) * 10 ^ k).
  { rewrite <- Z.mul_assoc, <- pow10_split by lia. f_equal. f_equal. lia. }
  rewrite E at 1. rewrite rhe_exact by lia. lia.
Qed.

Lemma round_signed_nonneg (t z : Z) : 0 <= z -> round_signed t z = round_at t z.
Proof.
  intros Hz. unfold round_signed.
  destruct (Z.eq_dec z 0) as [->|Hne]; [simpl; now rewrite round_at_0|].
  rewrite Z.sgn_pos by lia. rewrite Z.abs_eq by lia. lia.
Qed.

Lemma round_signed_opp (t z : Z) : round_signed t (- z) = - round_signed t z.
Proof.
  unfold round_signed. rewrite Z.sgn_opp, Z.abs_opp. lia.
Qed.

Lemma round_signed_neg (t z : Z) : z <= 0 -> round_signed t z = - round_at t (- z).
Proof.
  intros Hz. replace z with (- - z) at 1 by lia.
  rewrite round_signed_opp, round_signed_nonneg by lia. reflexivity.
Qed.

Lemma round_signed_sign (t z : Z) :
  0 <= t ->
  (0 <= z -> 0 <= round_signed t z) /\ (z <= 0 -> round_signed t z <= 0).
Proof.
  intros Ht. split; intros H.
  - rewrite round_signed_nonneg by assumption. now apply round_at_nonneg.
  - rewrite round_signed_neg by assumption.
    pose proof (round_at_nonneg t (- z) Ht ltac:(lia)). lia.
Qed.

Lemma round_signed_mono (t a b : Z) :
  0 <= t -> a <= b -> round_signed t a <= round_signed t b.
Proof.
  intros Ht Hab.
  destruct (Z.leb_spec 0 a) as [Ha|Ha].
  - rewrite !round_signed_nonneg by lia. apply round_at_mono; lia.
  - destruct (Z.leb_spec 0 b) as [Hb|Hb].
    + pose proof (proj2 (round_signed_sign t a Ht) ltac:(lia)).
      pose proof (proj1 (round_signed_sign t b Ht) ltac:(lia)). lia.
    + rewrite !round_signed_neg by lia.
      pose proof (round_at_mono t (- b) (- a) Ht ltac:(lia)). lia.
Qed.

Lemma round_signed_shift (t z j : Z) :
  0 <= t -> 0 <= j ->
  round_signed (t + j) (z * 10 ^ j) = round_signed t z * 10 ^ j.
Proof.
  intros Ht Hj. pose proof (pow10_pos j Hj) as Pj.
  destruct (Z.leb_spec 0 z) as [Hz|Hz].
  - rewrite !round_signed_nonneg by nia. apply round_at_shift; lia.
  - rewrite !round_signed_neg by nia.
    replace (- (z * 10 ^ j)) with ((- z) * 10 ^ j) by lia.
    rewrite round_at_shift by lia. lia.
Qed.

Lemma round_signed_abs (t z : Z) :
  0 <= t -> Z.abs (round_signed t z) = round_at t (Z.abs z).
Proof.
  intros Ht. unfold round_signed.
  pose proof (round_at_nonneg t (Z.abs z) Ht ltac:(lia)).
  destruct (Z.sgn_spec z) as [[? ->]|[[? ->]|[? ->]]]; try lia.
  subst z. simpl. now rewrite round_at_0.
Qed.

Lemma round_signed_0 (t : Z) : round_signed t 0 = 0.
Proof. reflexivity. Qed.

End RoundFacts.

(** ** Values of decimals and the rounding of results *)

Section DecimalFacts.
Import Digits PyDecimal.

Lemma pow10_le (a b : Z) : 0 <= a <= b -> 10 ^ a <= 10 ^ b.
Proof. intros. apply Z.pow_le_mono_r; lia. Qed.

Lemma pow10_lt (a b : Z) : 0 <= a < b -> 10 ^ a < 10 ^ b.
Proof. intros. apply Z.pow_lt_mono_r; lia. Qed.

Lemma context_constants :
  Etiny <= Etop /\ Etop + prec = Emax + 1 /\ Etiny <= 0 /\ 0 <= Emax
  /\ Etiny <= Emax /\ 0 < prec.
Proof. unfold Etiny, Etop, Emin, Emax, prec. lia. Qed.

Lemma scaled_shift (s s' : Z) (x : Decimal) :
  s' <= s -> s <= expo x -> scaled s' x = scaled s x * 10 ^ (s - s').
Proof.
  intros H1 H2. unfold scaled.
  rewrite <- Z.mul_assoc, <- pow10_split by lia.
  f_equal. f_equal. lia.
Qed.

Lemma le_at (s : Z) (x y : Decimal) :
  s <= expo x -> s <= expo y ->
  (le x y <-> scaled s x <= scaled s y).
Proof.
  intros Hx Hy. unfold le, leb.
  set (m := Z.min (expo x) (expo y)).
  rewrite Z.leb_le.
  rewrite (scaled_shift m s x), (scaled_shift m s y) by lia.
  pose proof (pow10_pos (m - s) ltac:(lia)). split; nia.
Qed.

Lemma lt_at (s : Z) (x y : Decimal) :
  s <= expo x -> s <= expo y ->
  (lt x y <-> scaled s x < scaled s y).
Proof.
  intros Hx Hy. unfold lt, ltb.
  set (m := Z.min (expo x) (expo y)).
  rewrite Z.ltb_lt.
  rewrite (scaled_shift m s x), (scaled_shift m s y) by lia.
  pose proof (pow10_pos (m - s) ltac:(lia)). split; nia.
Qed.

Lemma eqv_at (s : Z) (x y : Decimal) :
  s <= expo x -> s <= expo y ->
  (eqv x y <-> scaled s x = scaled s y).
Proof.
  intros Hx Hy. unfold eqv, eqb.
  set (m := Z.min (expo x) (expo y)).
  rewrite Z.eqb_eq.
  rewrite (scaled_shift m s x), (scaled_shift m s y) by lia.
  pose proof (pow10_pos (m - s) ltac:(lia)). split; nia.
Qed.

Lemma lt_le (x y : Decimal) : lt x y -> le x y.
Proof.
  unfold lt, le, ltb, leb. rewrite Z.ltb_lt, Z.leb_le. lia.
Qed.

Lemma le_trans (x y z : Decimal) : le x y -> le y z -> le x z.
Proof.
  set (s := Z.min (expo x) (Z.min (expo y) (expo z))).
  intros H1 H2.
  apply (le_at s) in H1; [|unfold s; lia..].
  apply (le_at s) in H2; [|unfold s; lia..].
  apply (le_at s); [unfold s; lia..|]. lia.
Qed.

Lemma scaled_sign (s : Z) (d : Decimal) :
  s <= expo d ->
  (0 <= scaled s d <-> 0 <= coef d) /\ (scaled s d = 0 <-> coef d = 0)
  /\ (scaled s d <= 0 <-> coef d <= 0).
Proof.
  intros Hs. unfold scaled.
  pose proof (pow10_pos (expo d - s) ltac:(lia)).
  repeat split; nia.
Qed.

Lemma le_zero_coef (x : Decimal) : le zero x <-> 0 <= coef x.
Proof.
  rewrite (le_at (Z.min 0 (expo x))) by (simpl; lia).
  unfold scaled, zero, of_int; simpl.
  pose proof (pow10_pos (expo x - Z.min 0 (expo x)) ltac:(lia)).
  split; nia.
Qed.


Lemma eqv_zero_coef (x : Decimal) : eqv x zero <-> coef x = 0.
Proof.
  rewrite (eqv_at (Z.min 0 (expo x))) by (simpl; lia).
  unfold scaled, zero, of_int; simpl.
  pose proof (pow10_pos (expo x - Z.min 0 (expo x)) ltac:(lia)).
  split; nia.
Qed.

Lemma sgn_abs_mul (c : Z) : Z.sgn c * Z.abs c = c.
Proof. destruct (Z.sgn_spec c) as [[? ->]|[[? ->]|[? ->]]]; lia. Qed.

Lemma round_signed_scaled (t c j : Z) :
  0 <= j ->
  round_signed t (c * 10 ^ j) = Z.sgn c * round_at t (Z.abs c * 10 ^ j).
Proof.
  intros Hj. pose proof (pow10_pos j Hj) as Pj.
  unfold round_signed. rewrite Z.abs_mul, (Z.abs_eq (10 ^ j)) by lia.
  rewrite Z.sgn_mul, (Z.sgn_pos (10 ^ j)) by lia. now rewrite Z.mul_1_r.
Qed.

(** What [fix_] does, read at a scale [s] below the exponent and below
    [Etiny]: the value is rounded by [round_signed], and [Overflow] is
    raised exactly when the rounded magnitude reaches [10^(Emax+1)]. *)
Lemma fix_spec (c e s : Z) :
  s <= e -> s <= Etiny ->
  (Z.abs (round_signed (Etiny - s) (c * 10 ^ (e - s))) < 10 ^ (Emax + 1 - s)
   /\ exists d, fix_ c e = Ok d /\ s <= expo d
                /\ scaled s d = round_signed (Etiny - s) (c * 10 ^ (e - s)))
  \/ (10 ^ (Emax + 1 - s) <= Z.abs (round_signed (Etiny - s) (c * 10 ^ (e - s)))
      /\ fix_ c e = Raise Overflow).
Proof.
  intros Hse Hst.
  destruct context_constants as [K1 [K2 [K3 [K4 [K5 K6]]]]].
  set (t := Etiny - s). set (j := e - s).
  assert (Ht : 0 <= t) by (unfold t; lia).
  assert (Hj : 0 <= j) by (unfold j; lia).
  pose proof (pow10_pos j Hj) as Pj.
  rewrite round_signed_abs by assumption.
  rewrite Z.abs_mul, (Z.abs_eq (10 ^ j)) by lia.
  rewrite round_signed_scaled by assumption.
  unfold fix_.
  destruct (Z.eqb_spec c 0) as [->|Hc].
  { left. change (Z.abs 0) with 0. change (Z.sgn 0) with 0.
    rewrite !Z.mul_0_l, round_at_0. split.
    - apply pow10_pos. lia.
    - eexists. split; [reflexivity|]. cbn [expo coef]. split; [lia|].
      unfold scaled; cbn [expo coef]. lia. }
  set (n := Z.abs c) in *.
  assert (Hn : 0 < n) by (unfold n; lia).
  pose proof (ndigits_pos n) as Hd.
  pose proof (ndigits_spec n Hn) as [Nlo Nhi].
  assert (HdN : ndigits (n * 10 ^ j) = ndigits n + j) by (apply ndigits_shift; lia).
  assert (HN : 0 < n * 10 ^ j) by nia.
  destruct (Z.ltb_spec Etop (ndigits n + e - prec)) as [Hov|Hno].
  { right. split; [|reflexivity].
    pose proof (round_at_lower t (n * 10 ^ j) Ht HN) as Lo.
    rewrite HdN in Lo.
    specialize (Lo ltac:(unfold t, j; lia)).
    assert (10 ^ (Emax + 1 - s) <= 10 ^ (ndigits n + j - 1))
      by (apply pow10_le; unfold j; lia).
    lia. }
  set (exp_min := Z.max (ndigits n + e - prec) Etiny).
  assert (Hq : quantum t (n * 10 ^ j) = exp_min - s)
    by (unfold quantum; rewrite HdN; unfold exp_min, t, j; lia).
  assert (Hem : Etiny <= exp_min <= Etop) by (unfold exp_min; lia).
  destruct (Z.ltb_spec e exp_min) as [Hround|Hkeep].
  - set (k := exp_min - e).
    assert (Hk : 0 < k) by (unfold k; lia).
    set (q := round_half_even n k).
    assert (Hrq : round_at t (n * 10 ^ j) = q * 10 ^ (exp_min - s)).
    { unfold round_at. rewrite Hq.
      replace (exp_min - s) with (k + j) by (unfold k, j; lia).
      now rewrite rhe_shift by lia. }
    rewrite Hrq.
    pose proof (pow10_pos (exp_min - s) ltac:(lia)) as Pe.
    pose proof (pow10_pos k ltac:(lia)) as Pk.
    assert (Hq0 : 0 <= q <= 10 ^ prec).
    { pose proof (rhe_bounds n k) as [Rlo Rhi]. fold q in Rlo, Rhi.
      assert (0 <= n / 10 ^ k) by (apply Z.div_pos; lia).
      assert (n / 10 ^ k < 10 ^ prec).
      { apply Z.div_lt_upper_bound; [lia|].
        rewrite <- pow10_split by lia.
        assert (10 ^ ndigits n <= 10 ^ (k + prec))
          by (apply pow10_le; unfold k, exp_min; lia).
        lia. }
      lia. }
    assert (Ebound : 10 ^ (Emax + 1 - s) = 10 ^ prec * 10 ^ (Etop - s)).
    { rewrite <- pow10_split by lia. f_equal. lia. }
    destruct (Z.eqb_spec q (10 ^ prec)) as [Hcarry|Hnc].
    + destruct (Z.ltb_spec Etop (exp_min + 1)) as [Hov2|Hok].
      * right. split; [|reflexivity].
        rewrite Hcarry, Ebound.
        assert (10 ^ (Etop - s) <= 10 ^ (exp_min - s)) by (apply pow10_le; lia).
        pose proof (pow10_pos prec ltac:(lia)). nia.
      * left. split.
        -- rewrite Hcarry, Ebound.
           assert (10 ^ (exp_min - s) < 10 ^ (Etop - s)) by (apply pow10_lt; lia).
           pose proof (pow10_pos prec ltac:(lia)). nia.
        -- eexists. split; [reflexivity|]. cbn [expo coef]. split; [lia|].
           unfold scaled; cbn [expo coef].
           replace (exp_min + 1 - s) with (1 + (exp_min - s)) by lia.
           rewrite pow10_split by lia. change (10 ^ 1) with 10.
           assert (Hq10 : q = 10 * (q / 10)).
           { apply Z.div_exact; [lia|]. rewrite Hcarry. reflexivity. }
           rewrite Hq10 at 2. lia.
    + left. split.
      * rewrite Ebound.
        assert (10 ^ (exp_min - s) <= 10 ^ (Etop - s)) by (apply pow10_le; lia).
        nia.
      * eexists. split; [reflexivity|]. cbn [expo coef]. split; [lia|].
        unfold scaled; cbn [expo coef]. lia.
  - left.
    assert (Hex : round_at t (n * 10 ^ j) = n * 10 ^ j).
    { apply round_at_exact; try assumption. rewrite Hq. unfold j. lia. }
    rewrite Hex. split.
    + assert (10 ^ (ndigits n + j) <= 10 ^ (Emax + 1 - s))
        by (apply pow10_le; unfold j; lia).
      rewrite pow10_split in * by lia. nia.
    + eexists. split; [reflexivity|]. cbn [expo coef]. split; [lia|].
      unfold scaled; cbn [expo coef]. fold j.
      rewrite Z.mul_assoc. unfold n. now rewrite sgn_abs_mul.
Qed.

End DecimalFacts.

(** ** The decimal operations *)

Section OperationFacts.
Import Digits PyDecimal.

(** [fix_] on a decimal [x], in one statement for the two outcomes. *)
Lemma fix_dec_spec (x : Decimal) (s : Z) :
  s <= expo x -> s <= Etiny ->
  outcome s (rounded s x) (fix_ (coef x) (expo x)).
Proof.
  intros Hs Ht. unfold outcome, rounded, bound, scaled.
  destruct (fix_spec (coef x) (expo x) s Hs Ht)
    as [[Hin [d [Hd [He Hv]]]]|[Hout Hr]].
  - rewrite Hd. auto.
  - rewrite Hr. auto.
Qed.

Lemma bound_pos (s : Z) : s <= Etiny -> 0 < bound s.
Proof.
  intros Hs. destruct context_constants as [K1 [K2 [K3 [K4 [K5 K6]]]]].
  apply pow10_pos. lia.
Qed.

Lemma rounded_mono (s : Z) (x y : Decimal) :
  s <= Etiny -> scaled s x <= scaled s y -> rounded s x <= rounded s y.
Proof. intros Hs H. apply round_signed_mono; [lia | assumption]. Qed.

Lemma rounded_sign (s : Z) (x : Decimal) :
  s <= Etiny ->
  (0 <= scaled s x -> 0 <= rounded s x) /\ (scaled s x <= 0 -> rounded s x <= 0).
Proof. intros Hs. apply round_signed_sign. lia. Qed.

Lemma rounded_zero (s : Z) (x : Decimal) : scaled s x = 0 -> rounded s x = 0.
Proof. intros H. unfold rounded. rewrite H. apply round_signed_0. Qed.

(** A value that the context holds is not changed. *)
Lemma rounded_exact (s : Z) (x : Decimal) :
  s <= expo x -> s <= Etiny -> fits x -> Etiny <= expo x ->
  rounded s x = scaled s x.
Proof.
  intros Hs Ht Hf He. unfold rounded, scaled.
  rewrite round_signed_scaled by lia.
  destruct (Z.eq_dec (coef x) 0) as [Hz|Hnz].
  - rewrite Hz. reflexivity.
  - rewrite round_at_exact; try lia.
    unfold quantum. rewrite ndigits_shift by lia. unfold fits in Hf. lia.
Qed.

Lemma scaled_in_bound (s : Z) (x : Decimal) :
  s <= expo x -> s <= Etiny ->
  ndigits (Z.abs (coef x)) + expo x <= Emax + 1 ->
  Z.abs (scaled s x) < bound s.
Proof.
  intros Hs Ht Ha. unfold scaled, bound.
  pose proof (pow10_pos (expo x - s) ltac:(lia)) as Pj.
  rewrite Z.abs_mul, (Z.abs_eq (10 ^ (expo x - s))) by lia.
  destruct context_constants as [K1 [K2 [K3 [K4 [K5 K6]]]]].
  destruct (Z.eq_dec (coef x) 0) as [Hz|Hnz].
  - rewrite Hz. change (Z.abs 0) with 0. rewrite Z.mul_0_l. apply pow10_pos. lia.
  - pose proof (ndigits_spec (Z.abs (coef x)) ltac:(lia)) as [_ Hi].
    pose proof (ndigits_pos (Z.abs (coef x))).
    assert (10 ^ (ndigits (Z.abs (coef x)) + (expo x - s)) <= 10 ^ (Emax + 1 - s))
      by (apply pow10_le; lia).
    rewrite pow10_split in * by lia. nia.
Qed.

(** A decimal that the context holds is returned as it is. *)
Lemma fix_representable (x : Decimal) :
  representable x -> fix_ (coef x) (expo x) = Ok x.
Proof.
  intros [Hf [He Ha]]. unfold fits in Hf.
  destruct context_constants as [K1 [K2 [K3 [K4 [K5 K6]]]]].
  unfold fix_.
  destruct (Z.eqb_spec (coef x) 0) as [Hz|Hnz].
  - rewrite Hz in *. change (Z.abs 0) with 0 in Ha.
    change (ndigits 0) with 1 in Ha.
    replace (Z.min (Z.max (expo x) Etiny) Emax) with (expo x) by lia.
    destruct x; simpl in *; now subst.
  - destruct (Z.ltb_spec Etop (ndigits (Z.abs (coef x)) + expo x - prec)); [lia|].
    destruct (Z.ltb_spec (expo x)
                (Z.max (ndigits (Z.abs (coef x)) + expo x - prec) Etiny)); [lia|].
    now destruct x.
Qed.

Lemma strip_zero_value (ideal s : Z) (d : Decimal) :
  s <= expo d -> scaled s (strip_zero ideal d) = scaled s d.
Proof.
  intros Hs. unfold strip_zero.
  destruct (Z.ltb_spec (expo d) ideal); simpl; [|reflexivity].
  destruct (Z.eqb_spec (coef d mod 10) 0) as [Hz|]; [|reflexivity].
  unfold scaled; simpl.
  replace (expo d + 1 - s) with (1 + (expo d - s)) by lia.
  rewrite pow10_split by lia. change (10 ^ 1) with 10.
  pose proof (Z.div_mod (coef d) 10 ltac:(lia)). lia.
Qed.

Lemma strip_zero_expo (ideal : Z) (d : Decimal) :
  expo d <= expo (strip_zero ideal d).
Proof.
  unfold strip_zero. destruct (_ && _); simpl; lia.
Qed.

Lemma strip_zero_abs (ideal : Z) (d : Decimal) :
  Z.abs (coef (strip_zero ideal d)) <= Z.abs (coef d).
Proof.
  unfold strip_zero.
  destruct (Z.ltb_spec (expo d) ideal); simpl; [|lia].
  destruct (Z.eqb_spec (coef d mod 10) 0) as [Hz|]; simpl; [|lia].
  pose proof (Z.div_mod (coef d) 10 ltac:(lia)). lia.
Qed.

(** The three operations, each as [fix_] of its exact result. *)
Lemma mul_spec (x y : Decimal) (s : Z) :
  s <= expo x + expo y -> s <= Etiny ->
  outcome s (rounded s (exact_mul x y)) (mul x y).
Proof. intros Hs Ht. exact (fix_dec_spec (exact_mul x y) s Hs Ht). Qed.


Lemma div_100_spec (x : Decimal) (s : Z) :
  s <= expo x - 2 -> s <= Etiny ->
  outcome s (rounded s (exact_div_100 x)) (div_100 x).
Proof.
  intros Hs Ht. unfold div_100.
  set (d0 := mkDecimal (coef x) (expo x - 2)).
  set (d := strip_zero (expo x) (strip_zero (expo x) d0)).
  pose proof (strip_zero_expo (expo x) d0) as E1.
  pose proof (strip_zero_expo (expo x) (strip_zero (expo x) d0)) as E2.
  fold d in E2. simpl in E1.
  assert (Hv : scaled s d = scaled s (exact_div_100 x)).
  { unfold d. rewrite !strip_zero_value by (simpl in *; lia). reflexivity. }
  pose proof (fix_dec_spec d s ltac:(lia) Ht) as H.
  unfold rounded in *. rewrite Hv in H. exact H.
Qed.


Lemma exact_mul_scaled (s1 s2 : Z) (x y : Decimal) :
  s1 <= expo x -> s2 <= expo y ->
  scaled (s1 + s2) (exact_mul x y) = scaled s1 x * scaled s2 y.
Proof.
  intros H1 H2. unfold exact_mul, scaled; simpl.
  replace (expo x + expo y - (s1 + s2)) with ((expo x - s1) + (expo y - s2)) by lia.
  rewrite pow10_split by lia. lia.
Qed.

Lemma exact_div_100_scaled (s : Z) (x : Decimal) :
  scaled (s - 2) (exact_div_100 x) = scaled s x.
Proof.
  unfold exact_div_100, scaled; simpl. f_equal. f_equal. lia.
Qed.

(** Two results of the context compared through their rounded values. *)
Lemma outcome_le (s vx vy : Z) (rx ry : result Decimal) (p q : Decimal) :
  outcome s vx rx -> outcome s vy ry -> vx <= vy ->
  rx = Ok p -> ry = Ok q -> le p q.
Proof.
  intros Ox Oy Hle -> ->. destruct Ox as [Ex [Vx _]], Oy as [Ey [Vy _]].
  apply (le_at s); [assumption..|]. lia.
Qed.

Lemma outcome_below (s vx vy : Z) (rx ry : result Decimal) (q : Decimal) :
  outcome s vx rx -> outcome s vy ry -> Z.abs vx <= Z.abs vy ->
  ry = Ok q -> exists p, rx = Ok p.
Proof.
  intros Ox Oy Hle ->. destruct Oy as [_ [_ By]].
  destruct rx as [p|ex]; [now exists p|].
  destruct Ox as [_ Bx]. lia.
Qed.

Lemma outcome_same (s v : Z) (rx ry : result Decimal) :
  outcome s v rx -> outcome s v ry ->
  match rx, ry with
  | Ok p, Ok q => eqv p q
  | Raise ex, Raise ey => ex = ey
  | _, _ => False
  end.
Proof.
  intros Ox Oy. destruct rx as [p|ex], ry as [q|ey]; simpl in *.
  - destruct Ox as [Ex [Vx _]], Oy as [Ey [Vy _]].
    apply (eqv_at s); [assumption..|]. congruence.
  - destruct Ox as [_ [_ B1]], Oy as [_ B2]. lia.
  - destruct Ox as [_ B1], Oy as [_ [_ B2]]. lia.
  - destruct Ox as [-> _], Oy as [-> _]. reflexivity.
Qed.

Lemma outcome_coef (s v : Z) (d : Decimal) :
  outcome s v (Ok d) ->
  (0 <= v <-> 0 <= coef d) /\ (v = 0 <-> coef d = 0) /\ (v <= 0 <-> coef d <= 0).
Proof.
  intros [E [V _]]. rewrite <- V. now apply scaled_sign.
Qed.

Lemma outcome_raise (s v : Z) (r : result Decimal) (ex : exn) :
  outcome s v r -> r = Raise ex -> ex = Overflow.
Proof. intros O ->. now destruct O. Qed.

Lemma fix_zero (e : Z) : exists d, fix_ 0 e = Ok d /\ coef d = 0.
Proof. unfold fix_. rewrite Z.eqb_refl. eexists. split; reflexivity. Qed.

Lemma fix_only_overflow (c e : Z) (ex : exn) : fix_ c e = Raise ex -> ex = Overflow.
Proof.
  unfold fix_.
  repeat match goal with
         | |- context [if ?b then _ else _] => destruct b
         end; intros H; congruence.
Qed.

End OperationFacts.

(** ** The fee *)

Section FeeFacts.
Import Digits PyDecimal Utils.

Lemma get_price_fee_unfold (a r : Decimal) :
  get_price_fee a r
  = match div_100 r with
    | Ok p => mul a p
    | Raise ex => Raise ex
    end.
Proof. reflexivity. Qed.

Lemma div_100_mono (x y q : Decimal) :
  0 <= coef x -> le x y -> div_100 y = Ok q ->
  exists p, div_100 x = Ok p /\ 0 <= coef p /\ le p q.
Proof.
  intros Hx Hle Hq.
  set (s := Z.min (Z.min (expo x) (expo y) - 2) Etiny).
  pose proof (div_100_spec x s ltac:(unfold s; lia) ltac:(unfold s; lia)) as Sx.
  pose proof (div_100_spec y s ltac:(unfold s; lia) ltac:(unfold s; lia)) as Sy.
  unfold rounded in Sx, Sy.
  replace s with ((s + 2) - 2) in Sx at 3 by lia.
  replace s with ((s + 2) - 2) in Sy at 3 by lia.
  rewrite exact_div_100_scaled in Sx, Sy.
  apply (le_at (s + 2)) in Hle; [|unfold s; lia..].
  assert (H0 : 0 <= scaled (s + 2) x)
    by (apply scaled_sign; [unfold s; lia | assumption]).
  assert (Ht : 0 <= Etiny - s) by (unfold s; lia).
  pose proof (round_signed_mono (Etiny - s) _ _ Ht Hle) as Hm.
  pose proof (proj1 (round_signed_sign (Etiny - s) (scaled (s + 2) x) Ht) H0) as Hp.
  destruct (outcome_below s _ _ _ _ q Sx Sy ltac:(lia) Hq) as [p Hpx].
  exists p. split; [assumption|]. split.
  - rewrite Hpx in Sx. now apply (outcome_coef s _ p Sx).
  - exact (outcome_le s _ _ _ _ p q Sx Sy Hm Hpx Hq).
Qed.

Lemma mul_mono (a p q f2 : Decimal) :
  0 <= coef a -> 0 <= coef p -> le p q -> mul a q = Ok f2 ->
  exists f1, mul a p = Ok f1 /\ 0 <= coef f1 /\ le f1 f2.
Proof.
  intros Ha Hp Hle Hq.
  set (s2 := Z.min (expo p) (expo q)).
  set (s := Z.min (expo a + s2) Etiny).
  pose proof (mul_spec a p s ltac:(unfold s, s2; lia) ltac:(unfold s; lia)) as Sp.
  pose proof (mul_spec a q s ltac:(unfold s, s2; lia) ltac:(unfold s; lia)) as Sq.
  unfold rounded in Sp, Sq.
  replace s with ((s - s2) + s2) in Sp at 3 by lia.
  replace s with ((s - s2) + s2) in Sq at 3 by lia.
  rewrite exact_mul_scaled in Sp, Sq by (unfold s, s2; lia).
  apply (le_at s2) in Hle; [|unfold s2; lia..].
  assert (A0 : 0 <= scaled (s - s2) a)
    by (apply scaled_sign; [unfold s, s2; lia | assumption]).
  assert (P0 : 0 <= scaled s2 p)
    by (apply scaled_sign; [unfold s2; lia | assumption]).
  assert (Ht : 0 <= Etiny - s) by (unfold s; lia).
  assert (Hprod : scaled (s - s2) a * scaled s2 p <= scaled (s - s2) a * scaled s2 q)
    by nia.
  pose proof (round_signed_mono (Etiny - s) _ _ Ht Hprod) as Hm.
  pose proof (proj1 (round_signed_sign (Etiny - s) _ Ht)
                (Z.mul_nonneg_nonneg _ _ A0 P0)) as Hpos.
  destruct (outcome_below s _ _ _ _ f2 Sp Sq ltac:(lia) Hq) as [f1 Hf1].
  exists f1. split; [assumption|]. split.
  - rewrite Hf1 in Sp. now apply (outcome_coef s _ f1 Sp).
  - exact (outcome_le s _ _ _ _ f1 f2 Sp Sq Hm Hf1 Hq).
Qed.

(** The fee grows with the rate, and is computed for a smaller rate
    whenever it is for a larger one. *)
Lemma get_price_fee_mono (a r1 r2 f2 : Decimal) :
  0 <= coef a -> 0 <= coef r1 -> le r1 r2 ->
  get_price_fee a r2 = Ok f2 ->
  exists f1, get_price_fee a r1 = Ok f1 /\ 0 <= coef f1 /\ le f1 f2.
Proof.
  intros Ha Hr1 Hle H2.
  rewrite get_price_fee_unfold in H2.
  destruct (div_100 r2) as [p2|ex] eqn:Hd2; [|discriminate].
  destruct (div_100_mono r1 r2 p2 Hr1 Hle Hd2) as [p1 [Hd1 [Hp1 Hp]]].
  destruct (mul_mono a p1 p2 f2 Ha Hp1 Hp H2) as [f1 [Hf1 [Hc Hl]]].
  exists f1. rewrite get_price_fee_unfold, Hd1. auto.
Qed.

Lemma strip_zero_coef_zero (ideal : Z) (d : Decimal) :
  coef d = 0 -> coef (strip_zero ideal d) = 0.
Proof.
  intros H. unfold strip_zero. destruct (_ && _); simpl; [|assumption].
  now rewrite H.
Qed.

Lemma div_100_zero (r : Decimal) :
  coef r = 0 -> exists p, div_100 r = Ok p /\ coef p = 0.
Proof.
  intros H. unfold div_100.
  rewrite (strip_zero_coef_zero (expo r) (strip_zero (expo r) _));
    [apply fix_zero|].
  now apply strip_zero_coef_zero.
Qed.

Lemma mul_zero_r (a p : Decimal) :
  coef p = 0 -> exists f, mul a p = Ok f /\ coef f = 0.
Proof.
  intros H. unfold mul. rewrite H, Z.mul_0_r. apply fix_zero.
Qed.

Lemma get_price_fee_zero_rate (a r : Decimal) :
  coef r = 0 -> exists f, get_price_fee a r = Ok f /\ coef f = 0.
Proof.
  intros H. rewrite get_price_fee_unfold.
  destruct (div_100_zero r H) as [p [-> Hp]].
  now apply mul_zero_r.
Qed.

Lemma div_100_hundred : div_100 hundred = Ok (of_int 1).
Proof. reflexivity. Qed.

Lemma get_price_fee_hundred (a : Decimal) :
  representable a -> get_price_fee a hundred = Ok a.
Proof.
  intros H. rewrite get_price_fee_unfold, div_100_hundred.
  unfold mul, of_int; cbn [coef expo].
  rewrite Z.mul_1_r, Z.add_0_r. now apply fix_representable.
Qed.

Lemma get_price_fee_raises (a r : Decimal) (ex : exn) :
  get_price_fee a r = Raise ex -> ex = Overflow.
Proof.
  rewrite get_price_fee_unfold. unfold div_100, mul.
  destruct (fix_ _ _) as [p|e1] eqn:H1.
  - apply fix_only_overflow.
  - intros H. injection H as <-. now apply fix_only_overflow in H1.
Qed.

(** The sign of the fee. *)
Lemma get_price_fee_sign (a r f : Decimal) :
  0 <= coef a -> get_price_fee a r = Ok f ->
  (0 <= coef r -> 0 <= coef f) /\ (coef r <= 0 -> coef f <= 0).
Proof.
  intros Ha H. rewrite get_price_fee_unfold in H.
  destruct (div_100 r) as [p|ex] eqn:Hd; [|discriminate].
  set (s1 := Z.min (expo r - 2) Etiny).
  pose proof (div_100_spec r s1 ltac:(unfold s1; lia) ltac:(unfold s1; lia)) as Sp.
  rewrite Hd in Sp.
  pose proof (outcome_coef s1 _ p Sp) as [Cp0 [_ Cp1]].
  pose proof (rounded_sign s1 (exact_div_100 r) ltac:(unfold s1; lia)) as [Rp0 Rp1].
  pose proof (scaled_sign s1 (exact_div_100 r) ltac:(unfold s1; simpl; lia))
    as [Sg0 [_ Sg1]].
  simpl in Sg0, Sg1.
  set (s := Z.min (expo a + expo p) Etiny).
  pose proof (mul_spec a p s ltac:(unfold s; lia) ltac:(unfold s; lia)) as Sf.
  rewrite H in Sf.
  pose proof (outcome_coef s _ f Sf) as [Cf0 [_ Cf1]].
  pose proof (rounded_sign s (exact_mul a p) ltac:(unfold s; lia)) as [Rf0 Rf1].
  pose proof (scaled_sign s (exact_mul a p) ltac:(unfold s; simpl; lia))
    as [Sm0 [_ Sm1]].
  simpl in Sm0, Sm1.
  split; intros Hr.
  - apply Cf0, Rf0, Sm0.
    assert (0 <= coef p) by (apply Cp0, Rp0, Sg0; assumption). nia.
  - apply Cf1, Rf1, Sm1.
    assert (coef p <= 0) by (apply Cp1, Rp1, Sg1; assumption). nia.
Qed.


(** Exactness: when the exact hundredth and the exact product are
    numbers that the context holds, the fee is the exact product. *)
Lemma get_price_fee_exact (a r : Decimal) :
  representable (exact_div_100 r) ->
  representable (exact_mul a (exact_div_100 r)) ->
  exists f, get_price_fee a r = Ok f
            /\ eqv f (exact_mul a (exact_div_100 r)).
Proof.
  intros [Hf1 [He1 Ha1]] [Hf2 [He2 Ha2]].
  simpl in He1, Ha1, He2, Ha2.
  destruct context_constants as [K1 [K2 [K3 [K4 [K5 K6]]]]].
  rewrite get_price_fee_unfold.
  set (s1 := Etiny).
  pose proof (div_100_spec r s1 ltac:(unfold s1; lia) ltac:(unfold s1; lia)) as Sp.
  rewrite (rounded_exact s1 (exact_div_100 r)) in Sp
    by (try assumption; unfold s1; simpl; lia).
  pose proof (scaled_in_bound s1 (exact_div_100 r)
                ltac:(unfold s1; simpl; lia) ltac:(unfold s1; lia) Ha1) as B1.
  destruct (div_100 r) as [p|ex]; [|destruct Sp; lia].
  destruct Sp as [Ep [Vp _]].
  set (s := Z.min (expo a + Etiny) Etiny).
  assert (Hs2 : s - Etiny <= expo a) by (unfold s; lia).
  pose proof (mul_spec a p s ltac:(unfold s, s1 in *; lia) ltac:(unfold s; lia)) as Sf.
  assert (Hval : scaled s (exact_mul a p)
                 = scaled s (exact_mul a (exact_div_100 r))).
  { replace s with ((s - Etiny) + Etiny) by lia.
    rewrite !exact_mul_scaled by (unfold s1 in *; simpl; lia).
    unfold s1 in Vp. now rewrite Vp. }
  unfold rounded in Sf. rewrite Hval in Sf.
  fold (rounded s (exact_mul a (exact_div_100 r))) in Sf.
  rewrite (rounded_exact s (exact_mul a (exact_div_100 r))) in Sf
    by (try assumption; unfold s; simpl; lia).
  pose proof (scaled_in_bound s (exact_mul a (exact_div_100 r))
                ltac:(unfold s; simpl; lia) ltac:(unfold s; lia) Ha2) as B2.
  destruct (mul a p) as [f|ex]; [|destruct Sf; lia].
  exists f. split; [reflexivity|].
  destruct Sf as [Ef [Vf _]].
  apply (eqv_at s); [assumption | unfold s; simpl; lia | assumption].
Qed.

(** The fee depends on the values only. *)
Lemma div_100_same (r r' : Decimal) :
  eqv r r' ->
  match div_100 r, div_100 r' with
  | Ok p, Ok p' => eqv p p'
  | Raise ex, Raise ex' => ex = ex'
  | _, _ => False
  end.
Proof.
  intros H.
  set (s := Z.min (Z.min (expo r) (expo r') - 2) Etiny).
  pose proof (div_100_spec r s ltac:(unfold s; lia) ltac:(unfold s; lia)) as S1.
  pose proof (div_100_spec r' s ltac:(unfold s; lia) ltac:(unfold s; lia)) as S2.
  unfold rounded in S1, S2.
  replace s with ((s + 2) - 2) in S1 at 3 by lia.
  replace s with ((s + 2) - 2) in S2 at 3 by lia.
  rewrite exact_div_100_scaled in S1, S2.
  apply (eqv_at (s + 2)) in H; [|unfold s; lia..].
  rewrite H in S1.
  exact (outcome_same s _ _ _ S1 S2).
Qed.

Lemma mul_same (a a' p p' : Decimal) :
  eqv a a' -> eqv p p' ->
  match mul a p, mul a' p' with
  | Ok f, Ok f' => eqv f f'
  | Raise ex, Raise ex' => ex = ex'
  | _, _ => False
  end.
Proof.
  intros Ha Hp.
  set (s1 := Z.min (expo a) (expo a')).
  set (s2 := Z.min (expo p) (expo p')).
  set (s := Z.min (s1 + s2) Etiny).
  pose proof (mul_spec a p s ltac:(unfold s, s1, s2; lia) ltac:(unfold s; lia)) as S1.
  pose proof (mul_spec a' p' s ltac:(unfold s, s1, s2; lia) ltac:(unfold s; lia)) as S2.
  unfold rounded in S1, S2.
  replace s with ((s - s2) + s2) in S1 at 3 by lia.
  replace s with ((s - s2) + s2) in S2 at 3 by lia.
  rewrite exact_mul_scaled in S1, S2 by (unfold s, s1, s2; lia).
  apply (eqv_at (s - s2)) in Ha; [|unfold s, s1, s2; lia..].
  apply (eqv_at s2) in Hp; [|unfold s2; lia..].
  rewrite Ha, Hp in S1.
  exact (outcome_same s _ _ _ S1 S2).
Qed.


End FeeFacts.

(** ** The claims on the fee and on the release *)

Section FeeClaims.
Import Digits PyDecimal Utils.

(** C7 (as amended).  For an amount that is not negative, the fee at a
    rate equal to zero is computed and is zero.  For rates [r1 <= r2] in
    [[0, 100)]: whenever the fee at [r2] is computed, the fee at [r1] is
    computed too and is at most the fee at [r2]; and both are computed
    when the amount is a number that the context holds. *)
Theorem get_price_fee_zero_and_monotone (amount_ r0 r1 r2 : Decimal) :
  (zero <= amount_)%dec ->
  (r0 == zero)%dec ->
  (zero <= r1)%dec -> (r1 <= r2)%dec -> (r2 < hundred)%dec ->
  (exists f0, get_price_fee amount_ r0 = Ok f0 /\ (f0 == zero)%dec)
  /\ (forall f2, get_price_fee amount_ r2 = Ok f2 ->
        exists f1, get_price_fee amount_ r1 = Ok f1 /\ (f1 <= f2)%dec)
  /\ (representable amount_ ->
        exists f1 f2, get_price_fee amount_ r1 = Ok f1
                      /\ get_price_fee amount_ r2 = Ok f2 /\ (f1 <= f2)%dec).
Proof.
  intros Ha H0 H1 H12 H2.
  apply le_zero_coef in Ha. apply eqv_zero_coef in H0.
  apply le_zero_coef in H1.
  assert (Hmono : forall f2, get_price_fee amount_ r2 = Ok f2 ->
            exists f1, get_price_fee amount_ r1 = Ok f1 /\ (f1 <= f2)%dec).
  { intros f2 Hf2.
    destruct (get_price_fee_mono amount_ r1 r2 f2 Ha H1 H12 Hf2)
      as [f1 [Hf1 [_ Hle]]].
    now exists f1. }
  split; [|split].
  - destruct (get_price_fee_zero_rate amount_ r0 H0) as [f0 [Hf0 Hc]].
    exists f0. split; [assumption | now apply eqv_zero_coef].
  - exact Hmono.
  - intros Hrep.
    assert (H2c : 0 <= coef r2).
    { apply le_zero_coef. apply (le_trans _ r1); [now apply le_zero_coef|assumption]. }
    destruct (get_price_fee_mono amount_ r2 hundred amount_ Ha H2c
                (lt_le _ _ H2) (get_price_fee_hundred amount_ Hrep))
      as [f2 [Hf2 _]].
    destruct (Hmono f2 Hf2) as [f1 [Hf1 Hle]].
    now exists f1, f2.
Qed.

Lemma get_price_fee_zero_and_monotone_witness :
  (exists f0, get_price_fee (mkDecimal 10 (-1)) (mkDecimal 0 (-1)) = Ok f0
              /\ (f0 == zero)%dec)
  /\ exists f1 f2,
       get_price_fee (mkDecimal 10 (-1)) (of_int 2) = Ok f1
       /\ get_price_fee (mkDecimal 10 (-1)) (mkDecimal 25 (-1)) = Ok f2
       /\ (f1 <= f2)%dec.
Proof.
  destruct (get_price_fee_zero_and_monotone (mkDecimal 10 (-1))
              (mkDecimal 0 (-1)) (of_int 2) (mkDecimal 25 (-1)))
    as [Hz [_ Hrep]]; try reflexivity.
  split; [exact Hz|]. apply Hrep.
  repeat split; vm_compute; discriminate.
Defined.

(** C7 (as stated) fails: for the amount [1E+1000001], which is not
    negative, and the rates 1 and 50, the fee at the rate 1 is
    [1E+999999] and the fee at the rate 50 raises [Overflow]. *)
Lemma get_price_fee_overflows_at_larger_rate :
  (zero <= Sample.huge_amount)%dec
  /\ (zero <= of_int 1)%dec /\ (of_int 1 <= of_int 50)%dec
  /\ (of_int 50 < hundred)%dec
  /\ get_price_fee Sample.huge_amount (of_int 1) = Ok (mkDecimal 1 999999)
  /\ get_price_fee Sample.huge_amount (of_int 50) = Raise Overflow.
Proof.
  split; [apply le_zero_coef; simpl; lia|].
  repeat split.
Qed.

(** C5 (as amended).  When the exact hundredth of the rate and the exact
    product of the amount and that hundredth are numbers that the context
    holds (at most 28 digits, no digit below [Etiny], adjusted exponent
    at most [Emax]), the fee is computed and is that exact product.  The
    fee of the amount 1.0 at the rate 2 is 0.020, which is 0.02. *)
Theorem get_price_fee_exact_within_precision (amount_ rate : Decimal) :
  representable (exact_div_100 rate) ->
  representable (exact_mul amount_ (exact_div_100 rate)) ->
  (exists f, get_price_fee amount_ rate = Ok f
             /\ (f == exact_mul amount_ (exact_div_100 rate))%dec)
  /\ get_price_fee (mkDecimal 10 (-1)) (of_int 2) = Ok (mkDecimal 20 (-3))
  /\ (mkDecimal 20 (-3) == mkDecimal 2 (-2))%dec.
Proof.
  intros H1 H2. split; [now apply get_price_fee_exact|].
  split; reflexivity.
Qed.

Lemma get_price_fee_exact_within_precision_witness :
  exists f, get_price_fee (mkDecimal 10 (-1)) (of_int 2) = Ok f
            /\ (f == exact_mul (mkDecimal 10 (-1)) (exact_div_100 (of_int 2)))%dec.
Proof.
  apply (get_price_fee_exact_within_precision (mkDecimal 10 (-1)) (of_int 2));
    repeat split; vm_compute; discriminate.
Defined.

(** C5 (as stated) fails: for the amount 0.12345678901234567 and the rate
    1.2345678901234567, both inside the bounds, the exact product has 33
    digits and the fee keeps 28 of them. *)
Lemma get_price_fee_rounds_long_product :
  Plan.in_bounds Sample.long_entry
  /\ get_price_fee (e_amount Sample.long_entry) (e_fee Sample.long_entry)
     = Ok (mkDecimal 1524157875323883455265967557 (-30))
  /\ exact_mul (e_amount Sample.long_entry)
       (exact_div_100 (e_fee Sample.long_entry))
     = mkDecimal 152415787532388345526596755677489 (-35)
  /\ eqb (mkDecimal 1524157875323883455265967557 (-30))
         (mkDecimal 152415787532388345526596755677489 (-35)) = false.
Proof.
  split; [repeat split|]. split; [|split]; vm_compute; reflexivity.
Qed.

End FeeClaims.

Section ReleaseClaims.
Import Digits PyDecimal Utils Views Plan.

(** The module as written: a body with one item or more, for an invoice
    that is found, ends in [NameError] before the wallet is called. *)
Lemma release_invoice_views_raises (w : World) (store : Store)
  (who id : string) (invoice : BitcoinInvoice) (k : string) (e : Entry)
  (rest : Vendors) :
  Utils.get_object_or_none store who id = Ok (Some invoice) ->
  release_invoice w store who id ((k, e) :: rest)
  = (Raise (NameError "get_price_fee"), []).
Proof.
  intros Hfound. unfold release_invoice, release_invoice_in.
  rewrite Hfound. now rewrite release_loop_views.
Qed.

(** With the name imported, the outputs that reach the wallet name the
    keys of the body, each once and in the order of the body. *)
Lemma release_imported_keeps_vendors (w : World) (store : Store)
  (who id : string) (vendors : Vendors) (r : result Response) (k : string)
  (outputs : list Bit.output) :
  release_invoice_imported w store who id vendors = (r, [Send k outputs]) ->
  map output_vendor outputs = dict_keys vendors.
Proof.
  unfold release_invoice_imported, release_invoice_in.
  destruct (Utils.get_object_or_none store who id) as [[i|]|ex];
    try discriminate.
  destruct (release_loop _ vendors (dict_keys vendors) []) as [outs|ex] eqn:Hl;
    [|discriminate].
  intros H. injection H as _ _ <-.
  destruct (release_loop_outputs _ _ _ _ _ Hl) as [added [-> [Hk _]]].
  exact Hk.
Qed.

(** C8 (the code at the failing input).  For the body
    [{"vendorA": {"amount": 1.00, "fee": 2}}] and an invoice that is
    found, the release raises [NameError] for [get_price_fee], a name the
    module does not import: no output is planned and the wallet is not
    called. *)
Theorem release_invoice_raises_name_error :
  release_invoice (Sample.world []) Sample.store "alice" "1f" Sample.request_2
  = (Raise (NameError "get_price_fee"), []).
Proof. reflexivity. Qed.

(** C2 (as amended).  For a body in which some entry has a negative net
    amount, the release makes no wallet call and gives no response but
    the one of an invoice that is not found; when the invoice is found it
    ends in an exception, before [wallet.send]. *)
Theorem release_fails_before_wallet (w : World) (store : Store)
  (who id : string) (vendors : Vendors) (v : string) (e : Entry)
  (net : Decimal) :
  In (v, e) vendors -> net_amount e = Ok net -> (net < zero)%dec ->
  snd (release_invoice w store who id vendors) = []
  /\ (forall r, fst (release_invoice w store who id vendors) = Ok r ->
                r = not_found)
  /\ (forall i, get_object_or_none store who id = Ok (Some i) ->
                exists ex, release_invoice w store who id vendors
                           = (Raise ex, [])).
Proof.
  intros Hin _ _.
  destruct (release_invoice_nonempty w store who id vendors v e Hin)
    as [H1 [H2 H3]].
  split; [assumption|]. split; [assumption|].
  intros i Hi. eexists. exact (H3 i Hi).
Qed.

Lemma release_fails_before_wallet_witness :
  snd (release_invoice (Sample.world []) Sample.store "alice" "1f"
         Sample.request_150) = []
  /\ (forall r, fst (release_invoice (Sample.world []) Sample.store "alice" "1f"
                       Sample.request_150) = Ok r -> r = not_found)
  /\ (forall i, get_object_or_none Sample.store "alice" "1f" = Ok (Some i) ->
                exists ex, release_invoice (Sample.world []) Sample.store
                             "alice" "1f" Sample.request_150 = (Raise ex, [])).
Proof.
  apply (release_fails_before_wallet (Sample.world []) Sample.store "alice" "1f"
           Sample.request_150 "vendorA" (mkEntry (of_int 1) (of_int 150))
           (mkDecimal (-5) (-1))).
  - now left.
  - reflexivity.
  - reflexivity.
Defined.

(** C2 (as stated) fails: the entry of amount 1 and rate 150 has the net
    amount -0.5, and the release of a body with it, for an invoice that
    is found, ends in the [NameError] for [get_price_fee]: the failure is
    not one of a check of the net amount, which the code does not
    have. *)
Lemma release_invoice_negative_net_amount :
  net_amount (mkEntry (of_int 1) (of_int 150)) = Ok (mkDecimal (-5) (-1))
  /\ ltb (mkDecimal (-5) (-1)) zero = true
  /\ release_invoice (Sample.world []) Sample.store "alice" "1f"
       Sample.request_150
     = (Raise (NameError "get_price_fee"), []).
Proof. repeat split. Qed.







End ReleaseClaims.

(* ================================================================== *)
(** * Further properties of the actions *)

(** ** The table: helper facts *)

Section Table.
Import Utils Views.

Lemma invoice_eqb_eq (a b : BitcoinInvoice) : invoice_eqb a b = true <-> a = b.
Proof.
  unfold invoice_eqb. split.
  - intros H.
    repeat (apply andb_prop in H; destruct H as [H ?]).
    destruct a as [[ca ea] ua ka aa wa], b as [[cb eb] ub kb ab wb]; simpl in *.
    repeat match goal with
           | E : (_ =? _) = true |- _ => apply Z.eqb_eq in E
           | E : String.eqb _ _ = true |- _ => apply String.eqb_eq in E
           end.
    now subst.
  - intros ->. now rewrite !Z.eqb_refl, !String.eqb_refl.
Qed.

Lemma objects_get_found (store : Store) (who id : string) (i : BitcoinInvoice) :
  get_object_or_none store who id = Ok (Some i) <->
  filter (fun j => String.eqb (user j) who && String.eqb (uuid j) id) store = [i].
Proof.
  unfold get_object_or_none, objects_get.
  destruct (filter _ store) as [|a [|b rest]]; split; intros H;
    try discriminate; congruence.
Qed.

Lemma get_object_or_none_sound (store : Store) (who id : string)
  (i : BitcoinInvoice) :
  get_object_or_none store who id = Ok (Some i) ->
  In i store /\ user i = who /\ uuid i = id.
Proof.
  intros H. apply objects_get_found in H.
  assert (Hin : In i (filter (fun j => String.eqb (user j) who
                                        && String.eqb (uuid j) id) store))
    by (rewrite H; now left).
  apply filter_In in Hin. destruct Hin as [Hin Hm].
  apply andb_prop in Hm. destruct Hm as [Hu Hi].
  apply String.eqb_eq in Hu. apply String.eqb_eq in Hi. auto.
Qed.

Lemma objects_get_two (store : Store) (who id : string)
  (l1 l2 l3 : Store) (a b : BitcoinInvoice) :
  store = l1 ++ a :: l2 ++ b :: l3 ->
  user a = who -> uuid a = id -> user b = who -> uuid b = id ->
  get_object_or_none store who id = Raise MultipleObjectsReturned.
Proof.
  intros -> Ha1 Ha2 Hb1 Hb2.
  unfold get_object_or_none, objects_get.
  rewrite filter_app. simpl.
  rewrite Ha1, Ha2, !String.eqb_refl. simpl.
  rewrite filter_app. simpl.
  rewrite Hb1, Hb2, !String.eqb_refl. simpl.
  destruct (filter _ l1) as [|x [|y r]]; simpl.
  - destruct (filter _ l2); reflexivity.
  - reflexivity.
  - reflexivity.
Qed.

Lemma filter_filter_implied {A : Type} (f g : A -> bool) (l : list A) :
  (forall x, In x l -> f x = true -> g x = true) ->
  filter f (filter g l) = filter f l.
Proof.
  induction l as [|x l IH]; intros H; simpl; [reflexivity|].
  destruct (g x) eqn:Hg; simpl.
  - rewrite IH by (intros y Hy; apply H; now right). reflexivity.
  - destruct (f x) eqn:Hf.
    + rewrite (H x (or_introl eq_refl) Hf) in Hg. discriminate.
    + apply IH. intros y Hy. apply H. now right.
Qed.

Lemma delete_row_only_found (store : Store) (who id : string)
  (i : BitcoinInvoice) :
  get_object_or_none store who id = Ok (Some i) ->
  filter (fun j => invoice_eqb j i) store = [i].
Proof.
  intros H.
  destruct (get_object_or_none_sound store who id i H) as [_ [Hu Hid]].
  apply objects_get_found in H.
  rewrite <- (filter_filter_implied (fun j => invoice_eqb j i)
                (fun j => String.eqb (user j) who && String.eqb (uuid j) id)).
  - rewrite H. simpl.
    replace (invoice_eqb i i) with true; [reflexivity|].
    symmetry. now apply invoice_eqb_eq.
  - intros x _ Hx. apply invoice_eqb_eq in Hx. subst x.
    now rewrite Hu, Hid, !String.eqb_refl.
Qed.

End Table.

(** ** The table: look-up and delete *)

Section TableProperties.
Import Utils Views.

(** X1.  The details action answers with an invoice only when that invoice
    is a row of the table with the owner and the identifier of the
    request; the table is as it was. *)
Theorem invoice_details_own_invoice (store store' : Store) (who id : string)
  (i : BitcoinInvoice) (st : Z) :
  invoice_details store who id = (Ok (mkResponse (InvoiceData i) st), store') ->
  In i store /\ user i = who /\ uuid i = id /\ st = 200 /\ store' = store.
Proof.
  unfold invoice_details.
  destruct (get_object_or_none store who id) as [[j|]|e] eqn:Hget;
    intros H; try discriminate.
  injection H as Ei Est Estore.
  subst j.
  destruct (get_object_or_none_sound store who id i Hget) as [H1 [H2 H3]].
  repeat split; auto.
Qed.

Lemma invoice_details_own_invoice_witness :
  In Sample.invoice Sample.store /\ user Sample.invoice = "alice"%string
  /\ uuid Sample.invoice = "1f"%string /\ 200 = 200
  /\ Sample.store = Sample.store.
Proof.
  apply (invoice_details_own_invoice Sample.store Sample.store "alice" "1f"
           Sample.invoice 200).
  reflexivity.
Defined.

(** X2.  When two rows of the table have the owner and the identifier of
    the request, the look-up raises [MultipleObjectsReturned], which no
    action catches: details, delete, check and release raise it, the
    table is as it was and the wallet is not called. *)
Theorem two_matching_rows_raise (w : World) (store l1 l2 l3 : Store)
  (who id : string) (a b : BitcoinInvoice) (vendors : Vendors) :
  store = l1 ++ a :: l2 ++ b :: l3 ->
  user a = who -> uuid a = id -> user b = who -> uuid b = id ->
  invoice_details store who id = (Raise MultipleObjectsReturned, store)
  /\ delete_invoice store who id = (Raise MultipleObjectsReturned, store)
  /\ check_invoice w store who id = (Raise MultipleObjectsReturned, [])
  /\ release_invoice w store who id vendors = (Raise MultipleObjectsReturned, []).
Proof.
  intros Hs Ha1 Ha2 Hb1 Hb2.
  pose proof (objects_get_two store who id l1 l2 l3 a b Hs Ha1 Ha2 Hb1 Hb2) as H.
  unfold invoice_details, delete_invoice, check_invoice, release_invoice,
    release_invoice_in.
  rewrite H. repeat split.
Qed.

Lemma two_matching_rows_raise_witness :
  invoice_details [Sample.invoice; Sample.invoice] "alice" "1f"
  = (Raise MultipleObjectsReturned, [Sample.invoice; Sample.invoice])
  /\ delete_invoice [Sample.invoice; Sample.invoice] "alice" "1f"
     = (Raise MultipleObjectsReturned, [Sample.invoice; Sample.invoice])
  /\ check_invoice (Sample.world []) [Sample.invoice; Sample.invoice] "alice" "1f"
     = (Raise MultipleObjectsReturned, [])
  /\ release_invoice (Sample.world []) [Sample.invoice; Sample.invoice]
       "alice" "1f" Sample.request_2
     = (Raise MultipleObjectsReturned, []).
Proof.
  apply (two_matching_rows_raise (Sample.world [])
           [Sample.invoice; Sample.invoice] [] [] [] "alice" "1f"
           Sample.invoice Sample.invoice Sample.request_2); reflexivity.
Defined.

(** X3.  A delete that finds the invoice answers with status 200 and
    takes exactly that one row out: the table is one row shorter, the
    invoice is no longer in it, and a second look-up with the same owner
    and identifier finds nothing. *)
Theorem delete_invoice_removes_row (store : Store) (who id : string)
  (i : BitcoinInvoice) :
  get_object_or_none store who id = Ok (Some i) ->
  exists store',
    delete_invoice store who id = (Ok (mkResponse NoData 200), store')
    /\ (List.length store' + 1 = List.length store)%nat
    /\ ~ In i store'
    /\ get_object_or_none store' who id = Ok None
    /\ delete_invoice store' who id = (Ok not_found, store').
Proof.
  intros H.
  exists (delete_row store i).
  assert (Hgone : forall j, In j (delete_row store i) -> j <> i).
  { intros j Hj Heq. unfold delete_row in Hj. apply filter_In in Hj.
    destruct Hj as [_ Hj]. apply negb_true_iff in Hj.
    apply invoice_eqb_eq in Heq. congruence. }
  assert (Hnone : get_object_or_none (delete_row store i) who id = Ok None).
  { apply get_object_or_none_no_match. intros j Hj [Hu Hid].
    apply (Hgone j Hj).
    pose proof (proj1 (objects_get_found store who id i) H) as Hf.
    assert (Hin : In j (filter (fun j => String.eqb (user j) who
                                          && String.eqb (uuid j) id) store)).
    { apply filter_In. split.
      - unfold delete_row in Hj. apply filter_In in Hj. tauto.
      - now rewrite Hu, Hid, !String.eqb_refl. }
    rewrite Hf in Hin. destruct Hin as [Hin|[]]. now symmetry. }
  repeat split.
  - unfold delete_invoice. now rewrite H.
  - pose proof (filter_length (fun j => invoice_eqb j i) store) as Hlen.
    rewrite (delete_row_only_found store who id i H) in Hlen.
    unfold delete_row. simpl in Hlen. lia.
  - intros Hin. now apply (Hgone i Hin).
  - exact Hnone.
  - unfold delete_invoice. now rewrite Hnone.
Qed.

Lemma delete_invoice_removes_row_witness :
  exists store',
    delete_invoice Sample.store "alice" "1f" = (Ok (mkResponse NoData 200), store')
    /\ (List.length store' + 1 = List.length Sample.store)%nat
    /\ ~ In Sample.invoice store'
    /\ get_object_or_none store' "alice" "1f" = Ok None
    /\ delete_invoice store' "alice" "1f" = (Ok not_found, store').
Proof.
  apply (delete_invoice_removes_row Sample.store "alice" "1f" Sample.invoice).
  reflexivity.
Defined.

(** X4.  A delete leaves every other look-up as it was: for an owner or an
    identifier other than those of the request, the look-up in the table
    after the delete gives what it gave before. *)
Theorem delete_invoice_keeps_other_lookups (store : Store)
  (who id who' id' : string) :
  who' <> who \/ id' <> id ->
  get_object_or_none (snd (delete_invoice store who id)) who' id'
  = get_object_or_none store who' id'.
Proof.
  intros Hne. unfold delete_invoice.
  destruct (get_object_or_none store who id) as [[i|]|e] eqn:Hget;
    simpl; try reflexivity.
  destruct (get_object_or_none_sound store who id i Hget) as [_ [Hu Hid]].
  unfold get_object_or_none, objects_get, delete_row.
  rewrite filter_filter_implied; [reflexivity|].
  intros x _ Hx. apply andb_prop in Hx. destruct Hx as [Hxu Hxi].
  apply String.eqb_eq in Hxu. apply String.eqb_eq in Hxi.
  apply negb_true_iff.
  destruct (invoice_eqb x i) eqn:E; [|reflexivity].
  apply invoice_eqb_eq in E. subst x. destruct Hne; congruence.
Qed.

Lemma delete_invoice_keeps_other_lookups_witness :
  get_object_or_none (snd (delete_invoice Sample.store "bob" "1f")) "alice" "1f"
  = get_object_or_none Sample.store "alice" "1f".
Proof.
  apply (delete_invoice_keeps_other_lookups Sample.store "bob" "1f" "alice" "1f").
  left. discriminate.
Defined.

End TableProperties.

(** ** The wallet calls of the actions *)

Section WalletProperties.
Import Utils Views Plan.

Lemma list_last_case {A : Type} (l : list A) :
  l = [] \/ exists before u, l = before ++ [u].
Proof.
  induction l as [|x l _] using rev_ind; [now left|right].
  now exists l, x.
Qed.

Lemma owned_of_found (store : Store) (who id : string) (i : BitcoinInvoice) :
  get_object_or_none store who id = Ok (Some i) ->
  owned store who id (key i).
Proof.
  intros H. destruct (get_object_or_none_sound store who id i H) as [H1 [H2 H3]].
  exists i. auto.
Qed.

(** X5.  The check answers with status 200 exactly when the invoice is
    found, the snapshot is not empty, and its last output has at least
    the amount owed and at least the confirmations of the threshold. *)
Theorem check_invoice_settled_iff (w : World) (store : Store) (who id : string) :
  (exists r, fst (check_invoice w store who id) = Ok r /\ status r = 200)
  <->
  (exists i before u,
      get_object_or_none store who id = Ok (Some i)
      /\ Bit.get_unspents (wallet_of w i) = before ++ [u]
      /\ currency_to_satoshi_cached w (amount i) "btc" <= Bit.amount u
      /\ BTC_CONFIRMATIONS (settings w) <= Bit.confirmations u).
Proof.
  unfold check_invoice. split.
  - intros [r [Hr Hst]].
    destruct (get_object_or_none store who id) as [[i|]|e] eqn:Hget;
      simpl in Hr; try discriminate.
    2:{ injection Hr as <-. discriminate Hst. }
    destruct (list_last_case (Bit.get_unspents (wallet_of w i)))
      as [Hnil|[before [u Hu]]].
    + rewrite Hnil in Hr. injection Hr as <-. discriminate Hst.
    + exists i, before, u. rewrite Hu in Hr.
      rewrite check_utxo_snoc in Hr. unfold SingleOutput.decide_on in Hr.
      destruct (Z.ltb_spec (Bit.amount u)
                  (currency_to_satoshi_cached w (amount i) "btc"));
        [injection Hr as <-; discriminate Hst|].
      destruct (Z.ltb_spec (Bit.confirmations u) (BTC_CONFIRMATIONS (settings w)));
        [injection Hr as <-; discriminate Hst|].
      auto.
  - intros [i [before [u [Hget [Hu [Ha Hc]]]]]].
    rewrite Hget. simpl. rewrite Hu, check_utxo_snoc.
    unfold SingleOutput.decide_on.
    destruct (Z.ltb_spec (Bit.amount u)
                (currency_to_satoshi_cached w (amount i) "btc")); [lia|].
    destruct (Z.ltb_spec (Bit.confirmations u) (BTC_CONFIRMATIONS (settings w)));
      [lia|].
    eexists. split; reflexivity.
Qed.

(** X6.  Every call that an action makes on a wallet uses the key of an
    invoice of the table that has the owner and the identifier of the
    request: check, release (whatever the module binds), balance and
    withdraw reach no other wallet. *)
Theorem wallet_calls_use_own_key (w : World) (l : Actions.Library)
  (globals : list string) (store : Store) (who id : string)
  (vendors : Vendors) (posted : Actions.serializer string) :
  (forall c, In c (snd (check_invoice w store who id)) ->
             owned store who id (wallet_call_key c))
  /\ (forall c, In c (snd (release_invoice_in globals w store who id vendors)) ->
                owned store who id (wallet_call_key c))
  /\ (forall c, In c (snd (Actions.invoice_balance l store who id)) ->
                owned store who id (Actions.call_key c))
  /\ (forall c, In c (snd (Actions.withdraw_invoice l store who id posted)) ->
                owned store who id (Actions.call_key c)).
Proof.
  unfold check_invoice, release_invoice_in, Actions.invoice_balance,
    Actions.withdraw_invoice.
  destruct (get_object_or_none store who id) as [[i|]|e] eqn:Hget.
  - pose proof (owned_of_found store who id i Hget) as Ho.
    repeat split; intros c Hc.
    + destruct Hc as [<-|[]]. exact Ho.
    + destruct (release_loop globals vendors (dict_keys vendors) []);
        simpl in Hc; [|contradiction].
      destruct Hc as [<-|[]]. exact Ho.
    + destruct Hc as [<-|[<-|[]]]; exact Ho.
    + destruct posted; simpl in Hc; [|contradiction].
      destruct Hc as [<-|[]]. exact Ho.
  - repeat split; intros c Hc; try contradiction.
    destruct posted; contradiction.
  - repeat split; intros c Hc; try contradiction.
    destruct posted; contradiction.
Qed.

(** X7.  The release as the module is written reaches the wallet only with
    an empty list of outputs: a call of [wallet.send] is made only for an
    empty body, and for an empty body and an invoice that is found it is
    made, with no output, and its result makes the response. *)
Theorem release_invoice_sends_only_empty (w : World) (store : Store)
  (who id : string) (vendors : Vendors) :
  (forall c, In c (snd (release_invoice w store who id vendors)) ->
             vendors = [] /\ exists k, c = Send k [])
  /\ (forall i, get_object_or_none store who id = Ok (Some i) ->
                release_invoice w store who id []
                = (Ok (response_of_send (Bit.send (wallet_of w i) [])),
                   [Send (key i) []])).
Proof.
  split.
  - unfold release_invoice, release_invoice_in.
    destruct (get_object_or_none store who id) as [[i|]|e];
      try (intros c []).
    destruct vendors as [|[k e] rest].
    + simpl. intros c [<-|[]]. split; [reflexivity | now exists (key i)].
    + rewrite release_loop_views. intros c [].
  - intros i Hget. unfold release_invoice, release_invoice_in.
    rewrite Hget. simpl. unfold response_of_send.
    now destruct (Bit.send (wallet_of w i) []).
Qed.

Lemma release_invoice_sends_only_empty_witness :
  release_invoice (Sample.world []) Sample.store "alice" "1f" []
  = (Ok (response_of_send
           (Bit.send (wallet_of (Sample.world []) Sample.invoice) [])),
     [Send (key Sample.invoice) []]).
Proof.
  apply (proj2 (release_invoice_sends_only_empty (Sample.world []) Sample.store
                  "alice" "1f" [])).
  reflexivity.
Defined.

End WalletProperties.


(** ** The fee: further properties *)

Section FeeProperties.
Import Digits PyDecimal Utils.

(** X8.  The fee depends on the numbers only, not on how they are
    written: for amounts that compare equal and rates that compare equal
    (1, 1.0, 1.00), either both fees are computed and compare equal, or
    both computations raise the same exception. *)
Theorem get_price_fee_respects_equal (a a' r r' : Decimal) :
  (a == a')%dec -> (r == r')%dec ->
  match get_price_fee a r, get_price_fee a' r' with
  | Ok f, Ok f' => (f == f')%dec
  | Raise ex, Raise ex' => ex = ex'
  | _, _ => False
  end.
Proof.
  intros Ha Hr. rewrite !get_price_fee_unfold.
  pose proof (div_100_same r r' Hr) as Hd.
  destruct (div_100 r) as [p|ex], (div_100 r') as [p'|ex'];
    try contradiction; [|assumption].
  exact (mul_same a a' p p' Ha Hd).
Qed.

Lemma get_price_fee_respects_equal_witness :
  match get_price_fee (of_int 1) (of_int 2),
        get_price_fee (mkDecimal 100 (-2)) (mkDecimal 20 (-1)) with
  | Ok f, Ok f' => (f == f')%dec
  | Raise ex, Raise ex' => ex = ex'
  | _, _ => False
  end.
Proof.
  apply (get_price_fee_respects_equal (of_int 1) (mkDecimal 100 (-2))
           (of_int 2) (mkDecimal 20 (-1))); reflexivity.
Defined.

(** X9.  For an amount that is not negative and a rate from 0 to 100, a
    fee that is computed is not negative; when the amount is a number
    that the context holds, the fee is computed, is at most the amount,
    and at the rate 100 it is the amount. *)
Theorem get_price_fee_between (a r : Decimal) :
  (zero <= a)%dec -> (zero <= r)%dec -> (r <= hundred)%dec ->
  (forall f, get_price_fee a r = Ok f -> (zero <= f)%dec)
  /\ (representable a ->
      (exists f, get_price_fee a r = Ok f /\ (zero <= f)%dec /\ (f <= a)%dec)
      /\ get_price_fee a hundred = Ok a).
Proof.
  intros Ha Hr0 Hr100.
  apply le_zero_coef in Ha. apply le_zero_coef in Hr0.
  split.
  - intros f Hf. apply le_zero_coef.
    now apply (get_price_fee_sign a r f Ha Hf).
  - intros Hrep. split; [|now apply get_price_fee_hundred].
    destruct (get_price_fee_mono a r hundred a Ha Hr0 Hr100
                (get_price_fee_hundred a Hrep)) as [f [Hf [Hc Hle]]].
    exists f. split; [assumption|]. split; [now apply le_zero_coef|assumption].
Qed.

Lemma get_price_fee_between_witness :
  (exists f, get_price_fee (mkDecimal 10 (-1)) (of_int 2) = Ok f
             /\ (zero <= f)%dec /\ (f <= mkDecimal 10 (-1))%dec)
  /\ get_price_fee (mkDecimal 10 (-1)) hundred = Ok (mkDecimal 10 (-1)).
Proof.
  destruct (get_price_fee_between (mkDecimal 10 (-1)) (of_int 2))
    as [_ H]; try reflexivity.
  apply H. repeat split; vm_compute; discriminate.
Defined.

End FeeProperties.

(** ** The listing and the creation *)

Section Listing.
Import Utils Views Actions.

Lemma insert_row_perm (leb : string -> string -> bool) (i : BitcoinInvoice)
  (rows : Store) :
  Permutation (insert_row leb i rows) (i :: rows).
Proof.
  induction rows as [|j rest IH]; simpl; [apply Permutation_refl|].
  destruct (leb (uuid i) (uuid j)); [apply Permutation_refl|].
  apply perm_trans with (j :: i :: rest); [now apply perm_skip | apply perm_swap].
Qed.

Lemma order_by_uuid_perm (leb : string -> string -> bool) (rows : Store) :
  Permutation (order_by_uuid leb rows) rows.
Proof.
  induction rows as [|i rest IH]; simpl; [apply perm_nil|].
  apply perm_trans with (i :: order_by_uuid leb rest);
    [apply insert_row_perm | now apply perm_skip].
Qed.

(** Keeping the rows that pass a test commutes with reordering them. *)
Lemma filter_rows_perm (keep : BitcoinInvoice -> bool) (rows rows' : Store) :
  Permutation rows rows' ->
  Permutation (filter keep rows) (filter keep rows').
Proof.
  intros Hp.
  induction Hp as [|i r r' _ IH|i j r|r r' r'' _ IH1 _ IH2]; simpl.
  - apply perm_nil.
  - destruct (keep i); [now apply perm_skip | assumption].
  - destruct (keep i), (keep j); try apply Permutation_refl. apply perm_swap.
  - now apply perm_trans with (filter keep r').
Qed.

Lemma insert_row_sorted (leb : string -> string -> bool) (i : BitcoinInvoice)
  (rows : Store) :
  (forall a b, leb a b = true \/ leb b a = true) ->
  Sorted (fun x y => leb (uuid x) (uuid y) = true) rows ->
  Sorted (fun x y => leb (uuid x) (uuid y) = true) (insert_row leb i rows).
Proof.
  intros Htot. induction rows as [|j rest IH]; intros Hs; simpl.
  - repeat constructor.
  - destruct (leb (uuid i) (uuid j)) eqn:E.
    + constructor; [assumption | now constructor].
    + inversion Hs as [|? ? Hrest Hhd]; subst.
      constructor; [now apply IH|].
      assert (Hji : leb (uuid j) (uuid i) = true)
        by (destruct (Htot (uuid i) (uuid j)); congruence).
      destruct rest as [|k rest']; simpl.
      * now constructor.
      * destruct (leb (uuid i) (uuid k)); constructor; [assumption|].
        now inversion Hhd.
Qed.

Lemma order_by_uuid_sorted (leb : string -> string -> bool) (rows : Store) :
  (forall a b, leb a b = true \/ leb b a = true) ->
  Sorted (fun x y => leb (uuid x) (uuid y) = true) (order_by_uuid leb rows).
Proof.
  intros Htot. induction rows as [|i rest IH]; simpl; [constructor|].
  now apply insert_row_sorted.
Qed.

Lemma filter_strongly_sorted {A : Type} (R : A -> A -> Prop) (f : A -> bool)
  (l : list A) :
  StronglySorted R l -> StronglySorted R (filter f l).
Proof.
  induction 1 as [|x l Hs IH Hall]; simpl; [constructor|].
  destruct (f x); [|assumption].
  constructor; [assumption|].
  apply Forall_forall. intros y Hy. apply filter_In in Hy.
  rewrite Forall_forall in Hall. now apply Hall.
Qed.

(** X12.  The listing of an anonymous request is empty; the listing of a
    user holds the rows of the table that the user owns, each as many
    times as the table has it, and no other row. *)
Theorem get_queryset_own_rows (leb : string -> string -> bool) (store : Store)
  (who : string) :
  get_queryset leb store AnonymousUser = []
  /\ Permutation (get_queryset leb store (User who))
                 (filter (fun i => String.eqb (user i) who) store)
  /\ (forall i, In i (get_queryset leb store (User who))
                <-> In i store /\ user i = who).
Proof.
  split; [reflexivity|].
  assert (Hp : Permutation (get_queryset leb store (User who))
                 (filter (fun i => String.eqb (user i) who) store))
    by (apply filter_rows_perm, order_by_uuid_perm).
  split; [exact Hp|].
  intros i. split.
  - intros Hin. apply (Permutation_in _ Hp) in Hin.
    apply filter_In in Hin. destruct Hin as [Hin Hu].
    now apply String.eqb_eq in Hu.
  - intros [Hin Hu]. apply (Permutation_in _ (Permutation_sym Hp)).
    apply filter_In. split; [assumption|]. now apply String.eqb_eq.
Qed.

(** X13.  When the order of the database on the column is total and
    transitive, the listing of a user is sorted by [uuid]: every row
    comes before all the rows after it. *)
Theorem get_queryset_sorted (leb : string -> string -> bool) (store : Store)
  (request_user : requester) :
  (forall a b, leb a b = true \/ leb b a = true) ->
  (forall a b c, leb a b = true -> leb b c = true -> leb a c = true) ->
  StronglySorted (fun x y => leb (uuid x) (uuid y) = true)
                 (get_queryset leb store request_user).
Proof.
  intros Htot Htrans.
  destruct request_user as [|who]; simpl; [constructor|].
  apply filter_strongly_sorted.
  apply Sorted_StronglySorted.
  - intros x y z Hxy Hyz. exact (Htrans _ _ _ Hxy Hyz).
  - now apply order_by_uuid_sorted.
Qed.

Lemma get_queryset_sorted_witness :
  StronglySorted
    (fun x y => (String.length (uuid x) <=? String.length (uuid y))%nat = true)
    (get_queryset (fun a b => (String.length a <=? String.length b)%nat)
       [mkInvoice PyDecimal.zero "22" "k2" "a2" "alice"; Sample.invoice;
        mkInvoice PyDecimal.zero "333" "k3" "a3" "bob"]
       (User "alice")).
Proof.
  apply (get_queryset_sorted
           (fun a b => (String.length a <=? String.length b)%nat)).
  - intros a b.
    destruct (Nat.leb_spec (String.length a) (String.length b)); [now left|].
    right. apply Nat.leb_le. lia.
  - intros a b c H1 H2. apply Nat.leb_le in H1, H2. apply Nat.leb_le. lia.
Defined.

End Listing.

Section Creation.
Import Utils Views Actions.

Lemma lookup_after_save (store : Store) (who id : string) (i : BitcoinInvoice) :
  filter (fun j => String.eqb (user j) who && String.eqb (uuid j) id)
         (save store i)
  = filter (fun j => String.eqb (user j) who && String.eqb (uuid j) id) store
    ++ (if String.eqb (user i) who && String.eqb (uuid i) id then [i] else []).
Proof. unfold save. rewrite filter_app. reflexivity. Qed.

Lemma fresh_no_match (store : Store) (who id : string) :
  (forall j, In j store -> uuid j <> id) -> no_match store who id.
Proof. intros H j Hj [_ Hid]. now apply (H j Hj). Qed.

(** X14.  A create with a valid post and an identifier that no row has
    adds the invoice of the requester: the details action then answers
    with it, and a delete of it gives back the table of before the
    create. *)
Theorem create_then_details_then_delete (store : Store) (who : string)
  (amount_ : PyDecimal.Decimal) (uuid_ key_ address_ : string) :
  (forall j, In j store -> uuid j <> uuid_) ->
  exists store',
    create_invoice store who (Valid amount_) uuid_ key_ address_
    = (Ok (mkReply
             (Plain (InvoiceData (mkInvoice amount_ uuid_ key_ address_ who)))
             200), store')
    /\ invoice_details store' who uuid_
       = (Ok (mkResponse
                (InvoiceData (mkInvoice amount_ uuid_ key_ address_ who)) 200),
          store')
    /\ delete_invoice store' who uuid_ = (Ok (mkResponse NoData 200), store).
Proof.
  intros Hfresh.
  set (i := mkInvoice amount_ uuid_ key_ address_ who).
  exists (save store i).
  assert (Hget : get_object_or_none (save store i) who uuid_ = Ok (Some i)).
  { apply objects_get_found. rewrite lookup_after_save.
    rewrite (filter_no_match store who uuid_ (fresh_no_match _ _ _ Hfresh)).
    simpl. now rewrite !String.eqb_refl. }
  split; [reflexivity|]. split.
  - unfold invoice_details. now rewrite Hget.
  - unfold delete_invoice. rewrite Hget. f_equal.
    unfold delete_row, save. rewrite filter_app. simpl.
    replace (invoice_eqb i i) with true
      by (symmetry; now apply invoice_eqb_eq).
    simpl. rewrite app_nil_r.
    clear Hget. induction store as [|j rest IH]; simpl; [reflexivity|].
    destruct (invoice_eqb j i) eqn:E.
    + apply invoice_eqb_eq in E. subst j.
      exfalso. apply (Hfresh i); [now left | reflexivity].
    + simpl. f_equal. apply IH. intros k Hk. apply Hfresh. now right.
Qed.

Lemma create_then_details_then_delete_witness :
  exists store',
    create_invoice Sample.store "bob" (Valid PyDecimal.zero) "2e" "wif2" "addr2"
    = (Ok (mkReply
             (Plain (InvoiceData (mkInvoice PyDecimal.zero "2e" "wif2" "addr2" "bob")))
             200), store')
    /\ invoice_details store' "bob" "2e"
       = (Ok (mkResponse
                (InvoiceData (mkInvoice PyDecimal.zero "2e" "wif2" "addr2" "bob"))
                200), store')
    /\ delete_invoice store' "bob" "2e" = (Ok (mkResponse NoData 200), Sample.store).
Proof.
  apply (create_then_details_then_delete Sample.store "bob" PyDecimal.zero
           "2e" "wif2" "addr2").
  intros j [<-|[]]. discriminate.
Defined.

(** X15.  A create with an identifier that no row has leaves every other
    look-up as it was: for an owner or an identifier other than those of
    the new invoice, the look-up in the table after the create gives what
    it gave before; a post that is not valid changes nothing. *)
Theorem create_invoice_keeps_other_lookups (store : Store) (who : string)
  (posted : serializer PyDecimal.Decimal) (uuid_ key_ address_ : string)
  (who' id' : string) :
  (forall j, In j store -> uuid j <> uuid_) ->
  who' <> who \/ id' <> uuid_ ->
  get_object_or_none
    (snd (create_invoice store who posted uuid_ key_ address_)) who' id'
  = get_object_or_none store who' id'
  /\ (forall errors, posted = Invalid errors ->
        create_invoice store who posted uuid_ key_ address_
        = (Ok (mkReply (ErrorsData errors) 400), store)).
Proof.
  intros _ Hne. split.
  - destruct posted as [amount_|errors]; simpl; [|reflexivity].
    unfold get_object_or_none, objects_get.
    rewrite lookup_after_save. simpl.
    replace (String.eqb who who' && String.eqb uuid_ id') with false.
    + now rewrite app_nil_r.
    + symmetry. apply andb_false_iff.
      destruct Hne as [H|H]; [left|right]; apply String.eqb_neq; congruence.
  - intros errors ->. reflexivity.
Qed.

Lemma create_invoice_keeps_other_lookups_witness :
  get_object_or_none
    (snd (create_invoice Sample.store "bob" (Valid PyDecimal.zero)
            "2e" "wif2" "addr2")) "alice" "1f"
  = get_object_or_none Sample.store "alice" "1f".
Proof.
  apply (create_invoice_keeps_other_lookups Sample.store "bob"
           (Valid PyDecimal.zero) "2e" "wif2" "addr2" "alice" "1f").
  - intros j [<-|[]]. discriminate.
  - left. discriminate.
Defined.

End Creation.

